(** * math-game: the timed arithmetic quiz

    A shallow embedding of the game logic of the MathGame component
    (question generator, period clock, the two-counter progression, answer
    submission), of the leaderboard hook on localStorage and of the GET
    handler of the express server, with the properties of the specification
    proved or refuted on it.

    Conventions.
    - JavaScript numbers that the program only ever uses as integers
      (counters, scores, operands, seconds, millisecond time stamps) are [Z].
    - [new Date()] and [Date.now()] are a time stamp in milliseconds handed to
      the operation that reads the clock.
    - [null] is [None].
    - [Math.random] is an oracle: a stream of draws, each draw holding the
      three values one call of [generateQuestion] derives from it.
    - React state is a record; a state updater [setGameState(prev => ...)] is
      a function on that record; [useRef] cells are fields of the component
      record next to it.  A handler and the updaters it queues run as one
      atomic transition, on the state the handler was rendered with; the
      updater a period boundary defers with [setTimeout(..., 0)] runs before
      the next event.
    - Of the component's state the model keeps the game state, the answer
      field, the feedback, the remaining time and the three refs of the
      clock.  [justSubmitted], [selectedQuestionId], the results and the
      leaderboard view only steer what is rendered; the one consequence kept
      is that the answer form is on screen only while the game is active
      ([formShown]).  The form is also hidden after an accepted answer until
      the next question can be answered, so the sessions of the model are a
      superset of the ones the screen allows. *)

From Stdlib Require Import ZArith List String Ascii Bool Lia.
From Stdlib Require Import DecimalString DecimalPos Permutation Sorted.
Import ListNotations.
Local Open Scope string_scope.
Local Open Scope list_scope.
Local Open Scope Z_scope.

(** ** Data model (src/types/game.ts) *)

Inductive Operator := Plus | Minus.

Definition operator_text (o : Operator) : string :=
  match o with Plus => "+" | Minus => "-" end.

Record Question := mkQuestion {
  id : Z;
  num1 : Z;
  num2 : Z;
  operator : Operator;
  correctAnswer : Z;
  questionText : string
}.

Record UserAnswer := mkUserAnswer {
  questionId : Z;
  userAnswer : option Z;
  isCorrect : option bool;
  answeredAt : option Z
}.

Record GameState := mkGameState {
  questionCounter : Z;
  answerCounter : Z;
  questions : list Question;
  userAnswers : list UserAnswer;
  score : Z;
  gameStartTime : option Z;
  gameEndTime : option Z;
  isGameActive : bool;
  canAnswerQuestionId : option Z
}.

Definition TOTAL_QUESTIONS : Z := 30.
Definition QUESTION_DELAY : Z := 3000.

(** ** The question generator *)

(** What one call of [generateQuestion] takes from [Math.random]:
    [floorA] and [floorB] are the two values [Math.floor(Math.random() * 10)],
    [aboveHalf] is the test [Math.random() > 0.5]. *)
Record Draw := mkDraw {
  floorA : Z;
  floorB : Z;
  aboveHalf : bool
}.

(** A number in a template string.  This is the JavaScript text for the
    integers the program prints (operands between 1 and 10) and for every
    integer of magnitude below 2^53; larger numbers are not exact doubles,
    and from 10^21 on JavaScript prints an exponent. *)
Definition show (n : Z) : string := NilZero.string_of_int (Z.to_int n).

Definition generateQuestion (questionNumber : Z) (d : Draw) : Question :=
  let n1 := floorA d + 1 in
  let n2 := floorB d + 1 in
  let op := if aboveHalf d then Plus else Minus in
  let '(finalNum1, finalNum2) :=
    match op with
    | Minus => if n1 <? n2 then (n2, n1) else (n1, n2)
    | Plus => (n1, n2)
    end in
  let answer :=
    match op with
    | Minus => finalNum1 - finalNum2
    | Plus => finalNum1 + finalNum2
    end in
  mkQuestion questionNumber finalNum1 finalNum2 op answer
    (show finalNum1 ++ " " ++ operator_text op ++ " " ++ show finalNum2 ++ " = ?")%string.

(** [initialQuestions[initialQuestions.length - 1]] *)
Definition lastQuestion (qs : list Question) : option Question :=
  match rev qs with
  | [] => None
  | q :: _ => Some q
  end.

(** The loop condition of the do-while, after [attempts++]. *)
Definition sameAsLast (q : Question) (qs : list Question) : bool :=
  match lastQuestion qs with
  | None => false
  | Some p =>
      String.eqb (questionText q) (questionText p)
      || (correctAnswer q =? correctAnswer p)
  end.

(** The do-while of [startGame] for one slot.  [pos] is the position in the
    random stream; the result holds the accepted question, the final value of
    [attempts] and the position after the last draw.  [fuel] is the number of
    iterations still allowed after this one; [drawSlot] starts it at 19, and
    [attempts < 20] fails before it is used up ([doWhile_spec]). *)
Fixpoint doWhile (fuel : nat) (attempts : Z) (i : Z) (initialQuestions : list Question)
    (rnd : nat -> Draw) (pos : nat) : Question * Z * nat :=
  let q := generateQuestion i (rnd pos) in
  let attempts := attempts + 1 in
  if (attempts <? 20) && sameAsLast q initialQuestions then
    match fuel with
    | S fuel' => doWhile fuel' attempts i initialQuestions rnd (S pos)
    | O => (q, attempts, S pos)
    end
  else (q, attempts, S pos).

Definition drawSlot (i : Z) (initialQuestions : list Question)
    (rnd : nat -> Draw) (pos : nat) : Question * Z * nat :=
  doWhile 19 0 i initialQuestions rnd pos.

Definition openAnswer (i : Z) : UserAnswer := mkUserAnswer i None None None.

(** The for loop of [startGame]: [slots] iterations are left, the next slot
    is [i]. *)
Fixpoint fillSlots (slots : nat) (i : Z) (initialQuestions : list Question)
    (initialAnswers : list UserAnswer) (rnd : nat -> Draw) (pos : nat)
    : list Question * list UserAnswer * nat :=
  match slots with
  | O => (initialQuestions, initialAnswers, pos)
  | S slots' =>
      let '(q, _, pos') := drawSlot i initialQuestions rnd pos in
      fillSlots slots' (i + 1) (initialQuestions ++ [q])
        (initialAnswers ++ [openAnswer i]) rnd pos'
  end.

(** The state [startGame] installs. *)
Definition startGame (now : Z) (rnd : nat -> Draw) : GameState :=
  let '(qs, ans, _) := fillSlots (Z.to_nat TOTAL_QUESTIONS) 1 [] [] rnd 0 in
  mkGameState 0 0 qs ans 0 (Some now) None true None.

(** ** Reading the answer field *)

(** A character of a string here is one code unit below 256, not a byte of
    an encoding: the model covers text in that range (digits, signs, Latin
    letters, the white space below), which is all a number field holds.
    Text with other characters is outside the model: the properties that
    read a free text field ask for characters below 128 ([isAsciiText]).
    The white space and line terminator code units of ECMAScript below 256:
    TAB, LF, VT, FF, CR, SP and NBSP. *)
Definition isWhiteSpace (c : ascii) : bool :=
  let n := Z.of_N (N_of_ascii c) in
  ((9 <=? n) && (n <=? 13)) || (n =? 32) || (n =? 160).

Fixpoint trimStart (s : string) : string :=
  match s with
  | EmptyString => EmptyString
  | String c s' => if isWhiteSpace c then trimStart s' else s
  end.

Fixpoint trimEnd (s : string) : string :=
  match s with
  | EmptyString => EmptyString
  | String c s' =>
      match trimEnd s' with
      | EmptyString => if isWhiteSpace c then EmptyString else String c EmptyString
      | t => String c t
      end
  end.

Definition trim (s : string) : string := trimEnd (trimStart s).

Definition isEmpty (s : string) : bool :=
  match s with EmptyString => true | _ => false end.

(** Every character is below 128. *)
Fixpoint isAsciiText (s : string) : bool :=
  match s with
  | EmptyString => true
  | String c s' => (Z.of_N (N_of_ascii c) <? 128) && isAsciiText s'
  end.

(** The value of a code unit as a digit, for radices up to 36. *)
Definition digitValue (c : ascii) : option Z :=
  let n := Z.of_N (N_of_ascii c) in
  if (48 <=? n) && (n <=? 57) then Some (n - 48)
  else if (97 <=? n) && (n <=? 122) then Some (n - 87)
  else if (65 <=? n) && (n <=? 90) then Some (n - 55)
  else None.

(** The longest prefix of radix-[R] digits, read as a number; [acc] is [None]
    until a digit has been read. *)
Fixpoint readDigits (R : Z) (s : string) (acc : option Z) : option Z :=
  match s with
  | EmptyString => acc
  | String c s' =>
      match digitValue c with
      | Some d =>
          if d <? R then
            readDigits R s' (Some (R * match acc with Some a => a | None => 0 end + d))
          else acc
      | None => acc
      end
  end.

(** [parseInt(s)] without a radix argument; [None] is [NaN].  The result is
    the mathematical integer the digits stand for.  It is the JavaScript
    number as long as its magnitude stays below 2^53; beyond that JavaScript
    rounds to a double, and the model is not to be used. *)
Definition parseInt (s : string) : option Z :=
  let s1 := trimStart s in
  let '(sign, s2) :=
    match s1 with
    | String "-" r => (-1, r)
    | String "+" r => (1, r)
    | _ => (1, s1)
    end in
  let '(R, s3) :=
    match s2 with
    | String "0" (String "x" r) => (16, r)
    | String "0" (String "X" r) => (16, r)
    | _ => (10, s2)
    end in
  match readDigits R s3 None with
  | None => None
  | Some m => Some (sign * m)
  end.

(** ** The component: React state and refs *)

Inductive Feedback :=
| NoFeedback
| AlreadyAnsweredMessage
| InvalidNumberMessage
| CorrectMessage (q : Question) (answerValue : Z)
| WrongMessage (q : Question) (answerValue : Z).

Record Component := mkComponent {
  gameState : GameState;
  currentAnswer : string;
  feedback : Feedback;
  timeRemaining : Z;
  lastTickRef : Z;
  countdownRef : bool;          (* an interval is registered *)
  finalEndPendingRef : bool
}.

(** Object spread: [{...s, field: v}]. *)
Definition set_questionCounter (v : Z) (s : GameState) : GameState :=
  mkGameState v (answerCounter s) (questions s) (userAnswers s) (score s)
    (gameStartTime s) (gameEndTime s) (isGameActive s) (canAnswerQuestionId s).
Definition set_answerCounter (v : Z) (s : GameState) : GameState :=
  mkGameState (questionCounter s) v (questions s) (userAnswers s) (score s)
    (gameStartTime s) (gameEndTime s) (isGameActive s) (canAnswerQuestionId s).
Definition set_userAnswers (v : list UserAnswer) (s : GameState) : GameState :=
  mkGameState (questionCounter s) (answerCounter s) (questions s) v (score s)
    (gameStartTime s) (gameEndTime s) (isGameActive s) (canAnswerQuestionId s).
Definition set_score (v : Z) (s : GameState) : GameState :=
  mkGameState (questionCounter s) (answerCounter s) (questions s) (userAnswers s) v
    (gameStartTime s) (gameEndTime s) (isGameActive s) (canAnswerQuestionId s).
Definition set_gameEndTime (v : option Z) (s : GameState) : GameState :=
  mkGameState (questionCounter s) (answerCounter s) (questions s) (userAnswers s) (score s)
    (gameStartTime s) v (isGameActive s) (canAnswerQuestionId s).
Definition set_isGameActive (v : bool) (s : GameState) : GameState :=
  mkGameState (questionCounter s) (answerCounter s) (questions s) (userAnswers s) (score s)
    (gameStartTime s) (gameEndTime s) v (canAnswerQuestionId s).
Definition set_canAnswerQuestionId (v : option Z) (s : GameState) : GameState :=
  mkGameState (questionCounter s) (answerCounter s) (questions s) (userAnswers s) (score s)
    (gameStartTime s) (gameEndTime s) (isGameActive s) v.

Definition set_gameState (v : GameState) (c : Component) : Component :=
  mkComponent v (currentAnswer c) (feedback c) (timeRemaining c) (lastTickRef c)
    (countdownRef c) (finalEndPendingRef c).
Definition set_currentAnswer (v : string) (c : Component) : Component :=
  mkComponent (gameState c) v (feedback c) (timeRemaining c) (lastTickRef c)
    (countdownRef c) (finalEndPendingRef c).
Definition set_feedback (v : Feedback) (c : Component) : Component :=
  mkComponent (gameState c) (currentAnswer c) v (timeRemaining c) (lastTickRef c)
    (countdownRef c) (finalEndPendingRef c).
Definition set_timeRemaining (v : Z) (c : Component) : Component :=
  mkComponent (gameState c) (currentAnswer c) (feedback c) v (lastTickRef c)
    (countdownRef c) (finalEndPendingRef c).
Definition set_lastTickRef (v : Z) (c : Component) : Component :=
  mkComponent (gameState c) (currentAnswer c) (feedback c) (timeRemaining c) v
    (countdownRef c) (finalEndPendingRef c).
Definition set_countdownRef (v : bool) (c : Component) : Component :=
  mkComponent (gameState c) (currentAnswer c) (feedback c) (timeRemaining c) (lastTickRef c)
    v (finalEndPendingRef c).
Definition set_finalEndPendingRef (v : bool) (c : Component) : Component :=
  mkComponent (gameState c) (currentAnswer c) (feedback c) (timeRemaining c) (lastTickRef c)
    (countdownRef c) v.

(** [if (x)] on a [number | null]: [null] and [0] are falsy. *)
Definition truthy (x : option Z) : bool :=
  match x with
  | Some n => negb (n =? 0)
  | None => false
  end.

(** [answer.questionId === x] for [x : number | null]. *)
Definition isId (n : Z) (x : option Z) : bool :=
  match x with
  | Some m => n =? m
  | None => false
  end.

(** ** The period clock and the progression (startCountdown) *)

(** The [map] of the boundary pass: the record of the question that could be
    answered gets a processing time; nothing else of it is touched. *)
Definition markProcessed (now : Z) (target : option Z) (answers : list UserAnswer)
    : list UserAnswer :=
  map (fun answer =>
         if isId (questionId answer) target
         then mkUserAnswer (questionId answer) (userAnswer answer) (isCorrect answer) (Some now)
         else answer)
      answers.

(** The state updater queued by a period boundary when the final wait is not
    pending.  The second component tells whether the updater set
    [finalEndPendingRef.current = true]. *)
Definition advance (now : Z) (prevState : GameState) : GameState * bool :=
  if negb (isGameActive prevState) then (prevState, false)
  else
    let newQuestionCounter :=
      if questionCounter prevState <? TOTAL_QUESTIONS
      then questionCounter prevState + 1
      else questionCounter prevState in
    let shouldStartAnswering :=
      ((newQuestionCounter =? 6) && (answerCounter prevState =? 0))
      || ((6 <? newQuestionCounter) && (0 <? answerCounter prevState)) in
    if shouldStartAnswering && (answerCounter prevState <? TOTAL_QUESTIONS) then
      let newUserAnswers :=
        if truthy (canAnswerQuestionId prevState)
        then markProcessed now (canAnswerQuestionId prevState) (userAnswers prevState)
        else userAnswers prevState in
      let newAnswerCounter := answerCounter prevState + 1 in
      if TOTAL_QUESTIONS <=? newAnswerCounter then
        (set_canAnswerQuestionId (Some TOTAL_QUESTIONS)
           (set_answerCounter TOTAL_QUESTIONS
              (set_userAnswers newUserAnswers prevState)),
         true)
      else
        (set_canAnswerQuestionId (Some newAnswerCounter)
           (set_userAnswers newUserAnswers
              (set_answerCounter newAnswerCounter
                 (set_questionCounter newQuestionCounter prevState))),
         false)
    else
      (set_canAnswerQuestionId (canAnswerQuestionId prevState)
         (set_userAnswers (userAnswers prevState)
            (set_answerCounter (answerCounter prevState)
               (set_questionCounter newQuestionCounter prevState))),
       false).

(** The updater of the automatic end. *)
Definition endGame (now : Z) (prev : GameState) : GameState :=
  set_gameEndTime (Some now) (set_isGameActive false prev).

(** What the interval callback does once the remaining time has run out and
    the re-entrancy guard has let it pass: the period boundary. *)
Definition periodBoundary (now : Z) (c : Component) : Component :=
  if finalEndPendingRef c then
    set_gameState (endGame now (gameState c))
      (set_countdownRef false (set_finalEndPendingRef false c))
  else
    let '(next, armed) := advance now (gameState c) in
    set_gameState next
      (if armed then set_finalEndPendingRef true c else c).

(** One firing of the 100 ms interval at time [now]. *)
Definition tick (now : Z) (c : Component) : Component :=
  if timeRemaining c <=? 100 then
    if now - lastTickRef c <? 100 then set_timeRemaining QUESTION_DELAY c
    else periodBoundary now (set_timeRemaining QUESTION_DELAY (set_lastTickRef now c))
  else set_timeRemaining (timeRemaining c - 100) c.

Definition startCountdown (c : Component) : Component :=
  let c := set_timeRemaining QUESTION_DELAY c in
  if countdownRef c then c
  else set_countdownRef true (set_lastTickRef 0 c).

(** ** Submitting an answer (handleAnswerSubmit) *)

Definition findAnswer (target : Z) (answers : list UserAnswer) : option UserAnswer :=
  find (fun a => questionId a =? target) answers.

Definition findQuestion (target : Z) (qs : list Question) : option Question :=
  find (fun q => id q =? target) qs.

(** The [map] of the submission updater. *)
Definition recordAnswer (now : Z) (target : Z) (answerValue : Z) (correct : bool)
    (answers : list UserAnswer) : list UserAnswer :=
  map (fun answer =>
         if questionId answer =? target
         then mkUserAnswer (questionId answer) (Some answerValue) (Some correct) (Some now)
         else answer)
      answers.

(** [existingAnswer && existingAnswer.userAnswer !== null] *)
Definition alreadyAnswered (target : Z) (answers : list UserAnswer) : bool :=
  match findAnswer target answers with
  | Some a => match userAnswer a with Some _ => true | None => false end
  | None => false
  end.

(** The first updater the handler queues: the records and the score. *)
Definition answerUpdater (now : Z) (target : Z) (answerValue : Z) (correct : bool)
    (prev : GameState) : GameState :=
  set_score (if correct then score prev + 1 else score prev)
    (set_userAnswers
       (recordAnswer now target answerValue correct (userAnswers prev))
       prev).

(** The handler.  Its second updater, queued for question 30 once the answer
    counter has reached 30, is the one of the automatic end ([endGame]). *)
Definition handleAnswerSubmit (now : Z) (c : Component) : Component :=
  let gs := gameState c in
  match canAnswerQuestionId gs with
  | None => c
  | Some targetQuestionId =>
      if (targetQuestionId =? 0) || isEmpty (trim (currentAnswer c)) then c
      else if alreadyAnswered targetQuestionId (userAnswers gs) then
        set_currentAnswer "" (set_feedback AlreadyAnsweredMessage c)
      else
        match parseInt (currentAnswer c) with
        | None => set_feedback InvalidNumberMessage c
        | Some answerValue =>
            match findQuestion targetQuestionId (questions gs) with
            | None => c
            | Some questionToAnswer =>
                let correct := answerValue =? correctAnswer questionToAnswer in
                let next := answerUpdater now targetQuestionId answerValue correct gs in
                let next :=
                  if (targetQuestionId =? TOTAL_QUESTIONS)
                     && (TOTAL_QUESTIONS <=? answerCounter gs)
                  then endGame now next
                  else next in
                set_currentAnswer ""
                  (set_feedback
                     (if correct then CorrectMessage questionToAnswer answerValue
                      else WrongMessage questionToAnswer answerValue)
                     (set_gameState next c))
            end
        end
  end.

(** ** A session *)

(** The component as mounted. *)
Definition mounted : Component :=
  mkComponent (mkGameState 0 0 [] [] 0 None None false None) "" NoFeedback
    QUESTION_DELAY 0 false false.

(** The start button: [startGame] up to its 1000 ms timer. *)
Definition pressStart (now : Z) (rnd : nat -> Draw) (c : Component) : Component :=
  set_feedback NoFeedback (set_currentAnswer "" (set_gameState (startGame now rnd) c)).

(** The 1000 ms timer of [startGame]: the first question is shown and the
    countdown starts. *)
Definition showFirst (c : Component) : Component :=
  startCountdown (set_gameState (set_questionCounter 1 (gameState c)) c).

Definition started (now : Z) (rnd : nat -> Draw) : Component :=
  showFirst (pressStart now rnd mounted).

(** The answer form is on screen: the game view is rendered (no results yet)
    and the question that can be answered exists. *)
Definition formShown (c : Component) : bool :=
  isGameActive (gameState c)
  && match canAnswerQuestionId (gameState c) with
     | Some t => match findQuestion t (questions (gameState c)) with
                 | Some _ => true
                 | None => false
                 end
     | None => false
     end.

Inductive Event :=
| Boundary (now : Z)      (* the interval reaches a period boundary *)
| Typed (s : string)      (* the input field changes *)
| Submit (now : Z).       (* the form is submitted *)

(** A boundary needs a registered interval, typing and submitting need the
    form; an event that cannot happen leaves the component as it is. *)
Definition fire (ev : Event) (c : Component) : Component :=
  match ev with
  | Boundary now => if countdownRef c then periodBoundary now c else c
  | Typed s => if formShown c then set_currentAnswer s c else c
  | Submit now => if formShown c then handleAnswerSubmit now c else c
  end.

Definition run (evs : list Event) (c : Component) : Component :=
  fold_left (fun c ev => fire ev c) evs c.


(** ** The leaderboard back ends *)

Module Leaderboard.

Record LeaderboardEntry := mkEntry {
  name : string;
  score : Z;
  totalTime : Z;      (* seconds *)
  createdAt : string  (* ISO *)
}.

(** The comparator handed to [Array.prototype.sort], the same in the hook
    and in the server. *)
Definition compare (a b : LeaderboardEntry) : Z :=
  if negb (score b =? score a) then score b - score a
  else totalTime a - totalTime b.

(** [Array.prototype.sort] with a consistent comparator is a stable sort,
    so its result is the one of any stable sort; here by insertion from
    the right.  [x] stood before every element of [l]: it goes before the
    first element it does not have to follow. *)
Fixpoint insert (x : LeaderboardEntry) (l : list LeaderboardEntry)
    : list LeaderboardEntry :=
  match l with
  | [] => [x]
  | y :: l' => if compare x y <=? 0 then x :: l else y :: insert x l'
  end.

Definition sort (l : list LeaderboardEntry) : list LeaderboardEntry :=
  fold_right insert [] l.

Definition sortAndTrim (arr : list LeaderboardEntry) : list LeaderboardEntry :=
  firstn 100 (sort arr).

(** What [localStorage] holds under [LEADERBOARD_KEY]. *)
Inductive Item :=
| Missing                                 (* getItem returns null *)
| Unparsable                              (* JSON.parse throws *)
| Stored (data : list LeaderboardEntry).

Definition readLeaderboard (st : Item) : list LeaderboardEntry :=
  match st with
  | Missing => sortAndTrim []
  | Unparsable => []
  | Stored data => sortAndTrim data
  end.

(** The new content of the store and the returned list. *)
Definition writeLeaderboard (entries : list LeaderboardEntry)
    : Item * list LeaderboardEntry :=
  let data := sortAndTrim entries in
  (Stored data, data).

Definition addLeaderboardEntry (entry : LeaderboardEntry) (st : Item)
    : Item * list LeaderboardEntry :=
  let arr := readLeaderboard st in
  writeLeaderboard (arr ++ [entry])%list.

(** The express server, reading side.  [None] is a [leaderboard.json] that
    cannot be read or parsed. *)
Definition DB := option (list LeaderboardEntry).

Definition readDB (db : DB) : list LeaderboardEntry :=
  match db with
  | Some arr => arr
  | None => []
  end.

Definition getLeaderboard (db : DB) : list LeaderboardEntry :=
  firstn 100 (sort (readDB db)).

(** The order of the board: higher score first, then shorter time. *)
Definition ranksBefore (a b : LeaderboardEntry) : Prop :=
  score b < score a \/ (score a = score b /\ totalTime a <= totalTime b).

(** [a] and [b] compare equal. *)
Definition tied (a b : LeaderboardEntry) : bool := compare a b =? 0.

(** Proof device: the list the comparator leaves when [e] stood behind every
    element of an already ordered [s]: [e] goes behind its ties. *)
Fixpoint insertLast (e : LeaderboardEntry) (s : list LeaderboardEntry)
    : list LeaderboardEntry :=
  match s with
  | [] => [e]
  | y :: s' => if compare y e <=? 0 then y :: insertLast e s' else e :: y :: s'
  end.

Definition ordered : list LeaderboardEntry -> Prop := Sorted ranksBefore.

(** The entries of the scenario in the specification. *)
Definition entryA : LeaderboardEntry := mkEntry "A" 10 20 "2024-01-01T00:00:00.000Z".
Definition entryB : LeaderboardEntry := mkEntry "B" 10 15 "2024-01-01T00:00:01.000Z".
Definition entryC : LeaderboardEntry := mkEntry "C" 9 5 "2024-01-01T00:00:02.000Z".

End Leaderboard.

(** ** The results and what the views derive from the state *)

Module Results.

(** [accuracy], the floating-point quotient [(score / 30) * 100], is a
    function of [score] alone and is left out of the record. *)
Record GameResults := mkGameResults {
  totalQuestions : Z;
  correctAnswers : Z;
  score : Z;
  totalTime : Z;       (* milliseconds *)
  questionDetails : list (Question * option UserAnswer)
}.

End Results.

(** The effect that builds the results; [None] when its guard fails and
    [setGameResults] is not called. *)
Definition buildResults (g : GameState) : option Results.GameResults :=
  match gameEndTime g, questions g with
  | Some ended, _ :: _ =>
      if isGameActive g then None
      else
        Some (Results.mkGameResults TOTAL_QUESTIONS (score g) (score g)
                (ended - match gameStartTime g with Some t => t | None => 0 end)
                (map (fun question =>
                        (question, findAnswer (id question) (userAnswers g)))
                     (questions g)))
  | _, _ => None
  end.

(** [gameState.questions[gameState.questionCounter - 1]] *)
Definition currentQuestion (g : GameState) : option Question :=
  if questionCounter g - 1 <? 0 then None
  else nth_error (questions g) (Z.to_nat (questionCounter g - 1)).

(** [gameState.questions.find(q => q.id === gameState.canAnswerQuestionId)] *)
Definition canAnswerQuestion (g : GameState) : option Question :=
  find (fun q => isId (id q) (canAnswerQuestionId g)) (questions g).

Definition hideLastQuestionText (g : GameState) : bool :=
  (questionCounter g =? TOTAL_QUESTIONS)
  && match canAnswerQuestionId g with
     | Some n => 26 <=? n
     | None => false
     end.

(** [Math.round(x / 1000)] for an integer [x]. *)
Definition roundSeconds (x : Z) : Z := (x + 500) / 1000.

(** The entry the results view hands to the leaderboard. *)
Definition scoreEntry (playerName : string) (r : Results.GameResults) (nowISO : string)
    : Leaderboard.LeaderboardEntry :=
  Leaderboard.mkEntry (trim playerName) (Results.score r)
    (roundSeconds (Results.totalTime r)) nowISO.

(** The submit button of the results view; it is disabled, [None], while the
    name is blank. *)
Definition submitScore (playerName : string) (r : Results.GameResults) (nowISO : string)
    (st : Leaderboard.Item) : option (Leaderboard.Item * list Leaderboard.LeaderboardEntry) :=
  if isEmpty (trim playerName) then None
  else Some (Leaderboard.addLeaderboardEntry (scoreEntry playerName r nowISO) st).

(** The interval firing at the given times, one after the other. *)
Definition ticks (times : list Z) (c : Component) : Component :=
  fold_left (fun c now => tick now c) times c.

(** The number of records marked correct. *)
Definition correctCount (answers : list UserAnswer) : Z :=
  Z.of_nat (List.length
    (filter (fun a => match isCorrect a with Some true => true | _ => false end) answers)).

(** ** Vocabulary of the properties *)

(** [i, i + 1, ..., i + n - 1] *)
Fixpoint iota (i : Z) (n : nat) : list Z :=
  match n with
  | O => []
  | S n' => i :: iota (i + 1) n'
  end.

Definition isBoundary (ev : Event) : bool :=
  match ev with Boundary _ => true | _ => false end.

(** The number of period boundaries among the events. *)
Definition boundaries (evs : list Event) : Z :=
  Z.of_nat (List.length (filter isBoundary evs)).

(** Where a session stands after [n] period boundaries. *)
Definition shape (n : Z) (c : Component) : Prop :=
  questionCounter (gameState c) = Z.min (n + 1) 30
  /\ answerCounter (gameState c) = (if n <? 5 then 0 else Z.min (n - 4) 30)
  /\ canAnswerQuestionId (gameState c) = (if n <? 5 then None else Some (Z.min (n - 4) 30))
  /\ (n <= 33 -> isGameActive (gameState c) = true
                 /\ finalEndPendingRef c = false /\ countdownRef c = true)
  /\ (n = 34 -> finalEndPendingRef c = true /\ countdownRef c = true)
  /\ (35 <= n -> isGameActive (gameState c) = false
                 /\ finalEndPendingRef c = false /\ countdownRef c = false).

(** The reading of the specification: a period boundary leaves the
    processing time and the verdict of a record alone once a submission has
    resolved it. *)
Definition boundary_spares_answered : Prop :=
  forall (now : Z) (rnd : nat -> Draw) (evs : list Event) (b : Z),
    let c := run evs (started now rnd) in
    Forall2 (fun r r' => userAnswer r <> None ->
                         answeredAt r' = answeredAt r /\ isCorrect r' = isCorrect r)
      (userAnswers (gameState c))
      (userAnswers (gameState (fire (Boundary b) c))).

(** [P] holds of every two neighbours of the list. *)
Fixpoint neighbours (P : Question -> Question -> Prop) (l : list Question) : Prop :=
  match l with
  | p :: (q :: _) as rest => P p q /\ neighbours P rest
  | _ => True
  end.

(** [q] repeats the text or the answer of [p]. *)
Definition repeats (q p : Question) : bool :=
  String.eqb (questionText q) (questionText p) || (correctAnswer q =? correctAnswer p).

(** Twenty draws in a row, from position [pos] on, all repeat [p]. *)
Definition exhausted (rnd : nat -> Draw) (p : Question) (pos : nat) : Prop :=
  forall j, (j < 20)%nat -> repeats (generateQuestion 0 (rnd (pos + j)%nat)) p = true.

(** The question that can be answered after [n] period boundaries, 0 for
    none. *)
Definition eligibleAfter (n : Z) : Z := if n <? 5 then 0 else Z.min (n - 4) 30.

(** A record with an answer has a verdict and one without has none. *)
Definition verdictWithAnswer (r : UserAnswer) : Prop :=
  match userAnswer r with
  | None => isCorrect r = None
  | Some _ => isCorrect r <> None
  end.

(** A record with respect to the question [e] that can be answered: behind
    the window it is as [startGame] made it, before the window it has a
    processing time. *)
Definition placed (e : Z) (r : UserAnswer) : Prop :=
  (if e <? questionId r then r = openAnswer (questionId r) else True)
  /\ (if questionId r <? e then answeredAt r <> None else True).

(** The number a string of decimal digits stands for, read from the left
    with [a] as the value so far. *)
Fixpoint uintValue (a : Z) (d : Decimal.uint) : Z :=
  match d with
  | Decimal.Nil => a
  | Decimal.D0 l => uintValue (10 * a + 0) l
  | Decimal.D1 l => uintValue (10 * a + 1) l
  | Decimal.D2 l => uintValue (10 * a + 2) l
  | Decimal.D3 l => uintValue (10 * a + 3) l
  | Decimal.D4 l => uintValue (10 * a + 4) l
  | Decimal.D5 l => uintValue (10 * a + 5) l
  | Decimal.D6 l => uintValue (10 * a + 6) l
  | Decimal.D7 l => uintValue (10 * a + 7) l
  | Decimal.D8 l => uintValue (10 * a + 8) l
  | Decimal.D9 l => uintValue (10 * a + 9) l
  end.

(** What one event does to one answer record after [n] period boundaries,
    [r] before and [r'] after.  Nothing; or a submission gives the untouched
    record of the question that can be answered its answer, verdict and
    time; or the boundary that moves the window (5 <= n <= 33) writes its
    time as the processing time of the record of the question that could be
    answered, which until then was untouched or had been answered. *)
Definition recordStep (n : Z) (ev : Event) (r r' : UserAnswer) : Prop :=
  r' = r
  \/ (exists now v k,
        ev = Submit now
        /\ questionId r = eligibleAfter n
        /\ r = openAnswer (questionId r)
        /\ r' = mkUserAnswer (questionId r) (Some v) (Some k) (Some now))
  \/ (exists b,
        ev = Boundary b
        /\ 5 <= n <= 33
        /\ questionId r = n - 4
        /\ (r = openAnswer (questionId r) \/ userAnswer r <> None)
        /\ r' = mkUserAnswer (questionId r) (userAnswer r) (isCorrect r) (Some b)).

(** A record whose question lies before [e] is final: [r'] is [r]; any
    other record stays the record of its question. *)
Definition finalBefore (e : Z) (r r' : UserAnswer) : Prop :=
  if questionId r <? e then r' = r else questionId r' = questionId r.

(** ** A sample session *)

(** A random source: 3 + 4, 1 + 1, 9 - 2, and again. *)
Definition sampleRnd (k : nat) : Draw :=
  match Nat.modulo k 3 with
  | O => mkDraw 2 3 true
  | S O => mkDraw 0 0 true
  | _ => mkDraw 8 1 false
  end.

(** The [k]-th period boundary of the sample session comes at [3000 * k]
    after the first question. *)
Definition sampleBoundaries (from : nat) (count : nat) : list Event :=
  map (fun k => Boundary (1000 + 3000 * Z.of_nat k)) (seq from count).

(** Question 1 can be answered, nothing typed yet. *)
Definition sampleOpen : Component :=
  run (sampleBoundaries 1 5) (started 0 sampleRnd).

(** Question 30 can be answered and the final wait is pending. *)
Definition sampleLast : Component :=
  run (sampleBoundaries 1 34) (started 0 sampleRnd).

(** A random source whose draws 0 to 20 are all 3 + 4 and whose later draws
    are 1 + 1. *)
Definition stubbornRnd (k : nat) : Draw :=
  if (k <=? 20)%nat then mkDraw 2 3 true else mkDraw 0 0 true.

(** A session in which no answer is submitted: the period boundaries
    [first, ..., first + count - 1], the [k]-th at time [t k]. *)
Definition silentBoundaries (t : nat -> Z) (first count : nat) : list Event :=
  map (fun k => Boundary (t k)) (seq first count).

(** * Properties *)

(** ** The leaderboard *)

Module LeaderboardSpec.
Import Leaderboard.

Lemma compare_cases (a b : LeaderboardEntry) :
  (score b <> score a /\ compare a b = score b - score a)
  \/ (score b = score a /\ compare a b = totalTime a - totalTime b).
Proof.
  unfold compare. destruct (Z.eqb_spec (score b) (score a)); simpl; auto.
Qed.

(** Turns the tests on the comparator into linear arithmetic on the keys. *)
Ltac by_keys :=
  unfold tied in *;
  repeat match goal with
    | H : (_ <=? _) = true |- _ => apply Z.leb_le in H
    | H : (_ <=? _) = false |- _ => apply Z.leb_gt in H
    | H : (_ =? _) = true |- _ => apply Z.eqb_eq in H
    | H : (_ =? _) = false |- _ => apply Z.eqb_neq in H
    | |- (_ <=? _) = true => apply Z.leb_le
    | |- (_ <=? _) = false => apply Z.leb_gt
    end;
  repeat match goal with
    | H : context [compare ?a ?b] |- _ =>
        let E := fresh in
        destruct (compare_cases a b) as [[? E]|[? E]]; rewrite E in *; clear E
    | |- context [compare ?a ?b] =>
        let E := fresh in
        destruct (compare_cases a b) as [[? E]|[? E]]; rewrite E in *; clear E
    end;
  try lia.

Lemma compare_ranksBefore (a b : LeaderboardEntry) :
  compare a b <= 0 <-> ranksBefore a b.
Proof.
  unfold ranksBefore; split; intros H; by_keys.
Qed.

Lemma insert_insertLast (x e : LeaderboardEntry) (s : list LeaderboardEntry) :
  insert x (insertLast e s) = insertLast e (insert x s).
Proof.
  induction s as [|y s IH]; simpl.
  - reflexivity.
  - destruct (compare y e <=? 0) eqn:Hye; destruct (compare x y <=? 0) eqn:Hxy;
      simpl; try rewrite Hye; try rewrite Hxy.
    + assert ((compare x e <=? 0) = true) as Hxe by by_keys.
      now rewrite Hxe.
    + now rewrite IH.
    + destruct (compare x e <=? 0) eqn:Hxe; simpl;
        try rewrite Hxy; try rewrite Hye; reflexivity.
    + assert ((compare x e <=? 0) = false) as Hxe by by_keys.
      now rewrite Hxe.
Qed.

Lemma sort_snoc (l : list LeaderboardEntry) (e : LeaderboardEntry) :
  sort (l ++ [e]) = insertLast e (sort l).
Proof.
  induction l as [|x l IH].
  - reflexivity.
  - change (insert x (sort (l ++ [e])) = insertLast e (insert x (sort l))).
    rewrite IH. apply insert_insertLast.
Qed.

Lemma insert_ordered (x : LeaderboardEntry) (l : list LeaderboardEntry) :
  ordered l -> ordered (insert x l).
Proof.
  unfold ordered. induction l as [|y l IH]; simpl; intros Hl.
  - repeat constructor.
  - destruct (Z.leb_spec (compare x y) 0) as [Hxy|Hxy].
    + constructor; [assumption|]. constructor. now apply compare_ranksBefore.
    + inversion Hl as [|? ? Hs Hh]; subst.
      constructor; [now apply IH|].
      assert (ranksBefore y x) by (apply compare_ranksBefore; by_keys).
      destruct l as [|z l]; simpl.
      * now constructor.
      * destruct (compare x z <=? 0); constructor; trivial.
        now inversion Hh.
Qed.

Lemma sort_ordered (l : list LeaderboardEntry) : ordered (sort l).
Proof.
  induction l as [|x l IH].
  - constructor.
  - now apply insert_ordered.
Qed.

Lemma insert_perm (x : LeaderboardEntry) (l : list LeaderboardEntry) :
  Permutation (insert x l) (x :: l).
Proof.
  induction l as [|y l IH]; simpl.
  - reflexivity.
  - destruct (compare x y <=? 0).
    + reflexivity.
    + rewrite IH. apply perm_swap.
Qed.

Lemma sort_perm (l : list LeaderboardEntry) : Permutation (sort l) l.
Proof.
  induction l as [|x l IH].
  - reflexivity.
  - change (Permutation (insert x (sort l)) (x :: l)).
    rewrite insert_perm. now constructor.
Qed.

(** Entries that compare equal keep the order they were stored in. *)
Lemma insert_stable (k x : LeaderboardEntry) (l : list LeaderboardEntry) :
  filter (tied k) (insert x l) = filter (tied k) (x :: l).
Proof.
  induction l as [|y l IH]; simpl.
  - reflexivity.
  - destruct (compare x y <=? 0) eqn:Hxy; simpl.
    + reflexivity.
    + rewrite IH. simpl.
      destruct (tied k x) eqn:Hx; destruct (tied k y) eqn:Hy; try reflexivity.
      exfalso. by_keys.
Qed.

Lemma sort_stable (k : LeaderboardEntry) (l : list LeaderboardEntry) :
  filter (tied k) (sort l) = filter (tied k) l.
Proof.
  induction l as [|x l IH].
  - reflexivity.
  - change (filter (tied k) (insert x (sort l)) = filter (tied k) (x :: l)).
    rewrite insert_stable. simpl. now rewrite IH.
Qed.

Lemma sort_of_ordered (l : list LeaderboardEntry) : ordered l -> sort l = l.
Proof.
  unfold ordered. induction l as [|x l IH]; intros Hl.
  - reflexivity.
  - inversion Hl as [|? ? Hs Hh]; subst.
    change (insert x (sort l) = x :: l).
    rewrite (IH Hs).
    destruct l as [|y l]; simpl.
    + reflexivity.
    + inversion Hh; subst.
      assert (compare x y <= 0) by now apply compare_ranksBefore.
      destruct (Z.leb_spec (compare x y) 0); [reflexivity|lia].
Qed.

Lemma firstn_ordered (n : nat) (l : list LeaderboardEntry) :
  ordered l -> ordered (firstn n l).
Proof.
  unfold ordered. revert l.
  induction n as [|n IH]; intros [|x l] Hl; simpl; try constructor.
  - apply IH. now inversion Hl.
  - inversion Hl as [|? ? Hs Hh]; subst.
    destruct n; simpl; [constructor|].
    destruct l; simpl; constructor. now inversion Hh.
Qed.

Lemma firstn_cons_firstn (n : nat) (y : LeaderboardEntry) (s : list LeaderboardEntry) :
  firstn n (y :: firstn n s) = firstn n (y :: s).
Proof.
  destruct n as [|n].
  - reflexivity.
  - change (y :: firstn n (firstn (S n) s) = y :: firstn n s).
    rewrite firstn_firstn. do 2 f_equal. lia.
Qed.

Lemma firstn_insertLast (n : nat) (e : LeaderboardEntry) (s : list LeaderboardEntry) :
  firstn n (insertLast e (firstn n s)) = firstn n (insertLast e s).
Proof.
  revert s. induction n as [|n IH]; intros s.
  - reflexivity.
  - destruct s as [|y s]; [reflexivity|].
    cbn [firstn insertLast].
    destruct (compare y e <=? 0).
    + cbn [firstn]. now rewrite IH.
    + cbn [firstn]. f_equal. apply firstn_cons_firstn.
Qed.

(** Trimming before the new entry is appended loses nothing. *)
Lemma sortAndTrim_snoc (l : list LeaderboardEntry) (e : LeaderboardEntry) :
  sortAndTrim (sortAndTrim l ++ [e]) = sortAndTrim (l ++ [e]).
Proof.
  unfold sortAndTrim.
  rewrite !sort_snoc.
  rewrite (sort_of_ordered _ (firstn_ordered 100 _ (sort_ordered l))).
  apply firstn_insertLast.
Qed.

Lemma sortAndTrim_idem (l : list LeaderboardEntry) :
  sortAndTrim (sortAndTrim l) = sortAndTrim l.
Proof.
  unfold sortAndTrim.
  rewrite (sort_of_ordered _ (firstn_ordered 100 _ (sort_ordered l))).
  rewrite firstn_firstn. reflexivity.
Qed.

Lemma sortAndTrim_length (l : list LeaderboardEntry) :
  (List.length (sortAndTrim l) <= 100)%nat.
Proof. unfold sortAndTrim. apply firstn_le_length. Qed.

(** C8.  Whatever list is stored (longer than 100 entries, with ties, in
    any order), [addLeaderboardEntry] followed by [readLeaderboard] gives
    the stored entries plus the new one, sorted by score descending and
    then by time ascending, cut to the first 100; the same list is what
    [addLeaderboardEntry] returns and what the server answers to a GET
    after a POST.  The sort is a permutation, ordered, and keeps ties in
    stored order.  Adding A (10, 20), B (10, 15) and C (9, 5) to an empty
    store reads back as B, A, C. *)
Theorem add_then_readAll (data : list LeaderboardEntry) (entry : LeaderboardEntry) :
  let expected := firstn 100 (sort (data ++ [entry])) in
  readLeaderboard (fst (addLeaderboardEntry entry (Stored data))) = expected
  /\ snd (addLeaderboardEntry entry (Stored data)) = expected
  /\ getLeaderboard (Some (data ++ [entry])) = expected
  /\ Permutation (sort (data ++ [entry])) (data ++ [entry])
  /\ Sorted ranksBefore (sort (data ++ [entry]))
  /\ (forall k, filter (tied k) (sort (data ++ [entry])) = filter (tied k) (data ++ [entry]))
  /\ (List.length expected <= 100)%nat
  /\ readLeaderboard
       (fst (addLeaderboardEntry entryC
          (fst (addLeaderboardEntry entryB
             (fst (addLeaderboardEntry entryA Missing))))))
     = [entryB; entryA; entryC].
Proof.
  cbv zeta. unfold addLeaderboardEntry, writeLeaderboard, getLeaderboard.
  cbn [fst snd readLeaderboard readDB].
  rewrite sortAndTrim_idem, sortAndTrim_snoc.
  repeat split.
  - apply sort_perm.
  - apply sort_ordered.
  - intros k. apply sort_stable.
  - apply firstn_le_length.
Qed.

End LeaderboardSpec.

(** ** The progression *)

(** Case analysis on every integer test in sight. *)
Ltac tests :=
  repeat match goal with
    | |- context [?a <? ?b] => destruct (Z.ltb_spec a b)
    | |- context [?a <=? ?b] => destruct (Z.leb_spec a b)
    | |- context [?a =? ?b] => destruct (Z.eqb_spec a b)
    end.

Section Progression.

Lemma run_snoc (evs : list Event) (ev : Event) (c : Component) :
  run (evs ++ [ev]) c = fire ev (run evs c).
Proof. unfold run. now rewrite fold_left_app. Qed.

Lemma boundaries_snoc (evs : list Event) (ev : Event) :
  boundaries (evs ++ [ev])
  = boundaries evs + match ev with Boundary _ => 1 | _ => 0 end.
Proof.
  unfold boundaries. rewrite filter_app, length_app.
  destruct ev; simpl; lia.
Qed.

Lemma boundaries_nonneg (evs : list Event) : 0 <= boundaries evs.
Proof. unfold boundaries. lia. Qed.

Lemma started_shape (now : Z) (rnd : nat -> Draw) : shape 0 (started now rnd).
Proof.
  unfold shape, started, showFirst, pressStart, startGame.
  destruct (fillSlots _ _ _ _ _ _) as [[qs ans] pos].
  simpl. repeat split; intros; try reflexivity; lia.
Qed.

Lemma periodBoundary_shape (n now : Z) (c : Component) :
  0 <= n -> shape n c -> countdownRef c = true ->
  shape (n + 1) (periodBoundary now c).
Proof.
  intros Hn (Hq & Ha & Hc & H33 & H34 & H35) Hcd.
  destruct c as [[qc ac qs uas sc st en act can] cur fb tr lt cd fin].
  simpl in *. subst qc ac can cd.
  assert (n <= 33 \/ n = 34) as [Hlow|Hlast].
  { destruct (Z.le_gt_cases 35 n) as [H|H]; [|lia].
    destruct (H35 H) as (_ & _ & ?). discriminate. }
  - destruct (H33 Hlow) as (-> & -> & _).
    unfold shape, periodBoundary, advance, TOTAL_QUESTIONS. simpl.
    tests; simpl; tests; simpl; try lia;
      repeat split; intros; try lia; try reflexivity; f_equal; lia.
  - destruct (H34 Hlast) as (-> & _).
    unfold shape, periodBoundary, endGame. simpl.
    tests; repeat split; intros; try lia; try reflexivity; f_equal; lia.
Qed.

(** What a submission can do: nothing to the game state, or the two
    updaters of an accepted answer.  The clock's refs are never touched. *)
Lemma handleAnswerSubmit_cases (now : Z) (c : Component) :
  timeRemaining (handleAnswerSubmit now c) = timeRemaining c
  /\ lastTickRef (handleAnswerSubmit now c) = lastTickRef c
  /\ countdownRef (handleAnswerSubmit now c) = countdownRef c
  /\ finalEndPendingRef (handleAnswerSubmit now c) = finalEndPendingRef c
  /\ (gameState (handleAnswerSubmit now c) = gameState c
      \/ exists t v q,
           canAnswerQuestionId (gameState c) = Some t
           /\ t <> 0
           /\ alreadyAnswered t (userAnswers (gameState c)) = false
           /\ parseInt (currentAnswer c) = Some v
           /\ findQuestion t (questions (gameState c)) = Some q
           /\ let next := answerUpdater now t v (v =? correctAnswer q) (gameState c) in
              gameState (handleAnswerSubmit now c)
              = if (t =? TOTAL_QUESTIONS) && (TOTAL_QUESTIONS <=? answerCounter (gameState c))
                then endGame now next else next).
Proof.
  unfold handleAnswerSubmit.
  destruct (canAnswerQuestionId (gameState c)) as [t|] eqn:Hcan;
    [|repeat split; now left].
  destruct (Z.eqb_spec t 0) as [Ht|Ht]; simpl orb; [repeat split; now left|].
  destruct (isEmpty (trim (currentAnswer c))); [repeat split; now left|].
  destruct (alreadyAnswered t (userAnswers (gameState c))) eqn:Hdup;
    [repeat split; now left|].
  destruct (parseInt (currentAnswer c)) as [v|] eqn:Hparse;
    [|repeat split; now left].
  destruct (findQuestion t (questions (gameState c))) as [q|] eqn:Hq;
    [|repeat split; now left].
  repeat split. right. exists t, v, q. repeat split; trivial.
Qed.

Lemma handleAnswerSubmit_shape (n now : Z) (c : Component) :
  shape n c -> shape n (handleAnswerSubmit now c).
Proof.
  intros (Hq & Ha & Hc & H33 & H34 & H35).
  destruct (handleAnswerSubmit_cases now c)
    as (_ & _ & Hcd & Hfin & [Hgs|(t & v & q & Hcan & _ & _ & _ & _ & Hgs)]);
    unfold shape; rewrite Hcd, Hfin, Hgs.
  - repeat split; trivial; intros;
      first [now apply H33 | now apply H34 | now apply H35].
  - cbv zeta. rewrite Hcan in Hc.
    assert (Hend : (t =? TOTAL_QUESTIONS) && (TOTAL_QUESTIONS <=? answerCounter (gameState c)) = true
                   -> 34 <= n).
    { unfold TOTAL_QUESTIONS. rewrite Ha. intros H.
      apply andb_prop in H as [_ H]. apply Z.leb_le in H.
      destruct (Z.ltb_spec n 5); lia. }
    destruct ((t =? TOTAL_QUESTIONS) && (TOTAL_QUESTIONS <=? answerCounter (gameState c))).
    + specialize (Hend eq_refl).
      unfold endGame, answerUpdater; simpl.
      rewrite Hcan. repeat split; trivial; intros; try lia.
      * now apply H34.
      * now apply H34.
      * now apply H35.
      * now apply H35.
    + unfold answerUpdater; simpl.
      rewrite Hcan. repeat split; trivial; intros;
        first [now apply H33 | now apply H34 | now apply H35].
Qed.

(** The counters and the question that can be answered are a function of
    the number of period boundaries alone, whatever was typed or submitted
    in between. *)
Lemma run_shape (now : Z) (rnd : nat -> Draw) (evs : list Event) :
  shape (boundaries evs) (run evs (started now rnd)).
Proof.
  induction evs as [|ev evs IH] using rev_ind.
  - apply started_shape.
  - rewrite run_snoc, boundaries_snoc.
    pose proof (boundaries_nonneg evs) as Hn.
    destruct ev as [t|s|t]; simpl fire.
    + destruct (countdownRef (run evs (started now rnd))) eqn:Hcd.
      * now apply periodBoundary_shape.
      * destruct IH as (Hq & Ha & Hc & H33 & H34 & H35).
        assert (35 <= boundaries evs).
        { destruct (Z.le_gt_cases 35 (boundaries evs)) as [H|H]; trivial.
          assert (boundaries evs <= 33 \/ boundaries evs = 34) as [H'|H'] by lia.
          - destruct (H33 H') as (_ & _ & ?). congruence.
          - destruct (H34 H') as (_ & ?). congruence. }
        unfold shape. rewrite Hq, Ha, Hc.
        tests; repeat split; intros; try lia; try now apply H35.
        f_equal; lia.
    + rewrite Z.add_0_r. destruct (formShown _); trivial.
    + rewrite Z.add_0_r. destruct (formShown _); trivial.
      now apply handleAnswerSubmit_shape.
Qed.

(** C5.  After [n] period boundaries of a session, with anything typed or
    submitted in between, the reveal counter is min(n + 1, 30) and the
    question that can be answered is none for n < 5 and min(n - 4, 30)
    from then on: the window opens on the fifth boundary, the one that
    takes the reveal counter to 6, steps through 1, 2, ..., 29 one
    boundary at a time, and stays at 30 once the answer counter is 30. *)
Theorem eligibility_schedule (now : Z) (rnd : nat -> Draw) (evs : list Event) :
  let c := run evs (started now rnd) in
  let n := boundaries evs in
  questionCounter (gameState c) = Z.min (n + 1) 30
  /\ answerCounter (gameState c) = (if n <? 5 then 0 else Z.min (n - 4) 30)
  /\ canAnswerQuestionId (gameState c)
     = (if n <? 5 then None else Some (Z.min (n - 4) 30)).
Proof.
  cbv zeta. destruct (run_shape now rnd evs) as (Hq & Ha & Hc & _).
  auto.
Qed.

(** C4.  From any state of a session, any event leaves both counters where
    they were or higher; both stay within 30 and the answer counter never
    passes the reveal counter.  The session begins with both counters at 0
    and the start timer takes the reveal counter to 1. *)
Theorem counters_monotone_bounded (now : Z) (rnd : nat -> Draw)
    (evs : list Event) (ev : Event) :
  let c0 := pressStart now rnd mounted in
  let c := run evs (started now rnd) in
  let c' := fire ev c in
  questionCounter (gameState c0) = 0
  /\ answerCounter (gameState c0) = 0
  /\ questionCounter (gameState (showFirst c0)) = 1
  /\ answerCounter (gameState (showFirst c0)) = 0
  /\ questionCounter (gameState c) <= questionCounter (gameState c')
  /\ answerCounter (gameState c) <= answerCounter (gameState c')
  /\ questionCounter (gameState c') <= 30
  /\ answerCounter (gameState c') <= 30
  /\ answerCounter (gameState c) <= questionCounter (gameState c)
  /\ answerCounter (gameState c') <= questionCounter (gameState c').
Proof.
  cbv zeta.
  assert (H0 : questionCounter (gameState (pressStart now rnd mounted)) = 0
               /\ answerCounter (gameState (pressStart now rnd mounted)) = 0).
  { unfold pressStart, startGame.
    destruct (fillSlots _ _ _ _ _ _) as [[qs ans] pos]. split; reflexivity. }
  destruct H0 as (Hq0 & Ha0).
  split; [exact Hq0|]. split; [exact Ha0|].
  split; [reflexivity|]. split; [exact Ha0|].
  rewrite <- run_snoc.
  destruct (run_shape now rnd evs) as (Hq & Ha & _).
  destruct (run_shape now rnd (evs ++ [ev])) as (Hq' & Ha' & _).
  rewrite Hq, Ha, Hq', Ha', boundaries_snoc.
  pose proof (boundaries_nonneg evs).
  destruct ev; tests; lia.
Qed.

(** The interval callback either only moves the remaining time or is a
    period boundary. *)
Lemma tick_cases (now : Z) (c : Component) :
  gameState (tick now c) = gameState c
  \/ tick now c
     = periodBoundary now (set_timeRemaining QUESTION_DELAY (set_lastTickRef now c)).
Proof.
  unfold tick. tests; auto.
Qed.

Lemma periodBoundary_frame (now : Z) (c : Component) :
  score (gameState (periodBoundary now c)) = score (gameState c)
  /\ questions (gameState (periodBoundary now c)) = questions (gameState c)
  /\ gameStartTime (gameState (periodBoundary now c)) = gameStartTime (gameState c)
  /\ (if finalEndPendingRef c
      then gameState (periodBoundary now c) = endGame now (gameState c)
           /\ questionCounter (gameState (periodBoundary now c)) = questionCounter (gameState c)
           /\ answerCounter (gameState (periodBoundary now c)) = answerCounter (gameState c)
           /\ userAnswers (gameState (periodBoundary now c)) = userAnswers (gameState c)
           /\ canAnswerQuestionId (gameState (periodBoundary now c))
              = canAnswerQuestionId (gameState c)
      else isGameActive (gameState (periodBoundary now c)) = isGameActive (gameState c)
           /\ gameEndTime (gameState (periodBoundary now c)) = gameEndTime (gameState c)).
Proof.
  destruct c as [[qc ac qs uas sc st en act can] cur fb tr lt cd fin].
  unfold periodBoundary, advance, endGame. simpl.
  destruct fin; simpl; [repeat split|].
  destruct act; simpl; [|repeat split].
  tests; simpl; repeat split.
Qed.

(** C10.  A period boundary leaves the score, the questions and the start
    time alone.  The boundary of the automatic end changes only
    [isGameActive] and [gameEndTime]; any other boundary leaves those two
    alone.  The same holds for every firing of the interval. *)
Theorem boundary_frame (now : Z) (c : Component) :
  let g := gameState c in
  let g' := gameState (periodBoundary now c) in
  let t' := gameState (tick now c) in
  score g' = score g
  /\ questions g' = questions g
  /\ gameStartTime g' = gameStartTime g
  /\ (if finalEndPendingRef c
      then g' = endGame now g
           /\ questionCounter g' = questionCounter g
           /\ answerCounter g' = answerCounter g
           /\ userAnswers g' = userAnswers g
           /\ canAnswerQuestionId g' = canAnswerQuestionId g
      else isGameActive g' = isGameActive g
           /\ gameEndTime g' = gameEndTime g)
  /\ score t' = score g
  /\ questions t' = questions g
  /\ gameStartTime t' = gameStartTime g.
Proof.
  cbv zeta.
  destruct (periodBoundary_frame now c) as (H1 & H2 & H3 & H4).
  repeat split; trivial.
  all: destruct (tick_cases now c) as [E|E]; rewrite E; trivial.
  all: destruct (periodBoundary_frame now (set_timeRemaining QUESTION_DELAY (set_lastTickRef now c)))
         as (K1 & K2 & K3 & _); simpl in *; trivial.
Qed.

End Progression.

(** ** Submissions *)

Section Submission.

Lemma trimEnd_nonblank (c : ascii) (s : string) :
  isWhiteSpace c = false -> isEmpty (trimEnd (String c s)) = false.
Proof.
  intros Hc. simpl. destruct (trimEnd s); [rewrite Hc|]; reflexivity.
Qed.

Lemma trim_blank (s : string) :
  isEmpty (trim s) = true -> trimStart s = EmptyString.
Proof.
  unfold trim. induction s as [|c s IH]; cbn [trimStart]; trivial.
  destruct (isWhiteSpace c) eqn:Hc; trivial.
  intros H. rewrite (trimEnd_nonblank c s Hc) in H. discriminate.
Qed.

(** Whatever [parseInt] reads as a number passes the blank test of the
    handler. *)
Lemma parseInt_nonblank (s : string) (v : Z) :
  parseInt s = Some v -> isEmpty (trim s) = false.
Proof.
  intros Hp. destruct (isEmpty (trim s)) eqn:Hb; trivial.
  apply trim_blank in Hb. unfold parseInt in Hp. rewrite Hb in Hp. discriminate.
Qed.

Lemma recordAnswer_target (now t v : Z) (b : bool) (answers : list UserAnswer)
    (r : UserAnswer) :
  In r (recordAnswer now t v b answers) -> questionId r = t ->
  r = mkUserAnswer t (Some v) (Some b) (Some now).
Proof.
  unfold recordAnswer. intros Hin Hid.
  apply in_map_iff in Hin as (a & Ha & _).
  destruct (Z.eqb_spec (questionId a) t) as [E|E]; subst r; simpl in *.
  - now rewrite E.
  - contradiction.
Qed.

(** The scenario of the specification: 3 + 4 answered with 7 is correct
    and scores; 9 - 2 answered with 6 is wrong and does not. *)
Example scenario_right_then_wrong :
  let c1 := handleAnswerSubmit 16500 (set_currentAnswer "7" sampleOpen) in
  let c3 := run (sampleBoundaries 6 2) c1 in
  let c4 := handleAnswerSubmit 22500 (set_currentAnswer "6" c3) in
  map questionText (firstn 3 (questions (gameState sampleOpen)))
    = ["3 + 4 = ?"; "1 + 1 = ?"; "9 - 2 = ?"]
  /\ score (gameState sampleOpen) = 0
  /\ feedback c1 = CorrectMessage (mkQuestion 1 3 4 Plus 7 "3 + 4 = ?") 7
  /\ score (gameState c1) = 1
  /\ canAnswerQuestionId (gameState c3) = Some 3
  /\ feedback c4 = WrongMessage (mkQuestion 3 9 2 Minus 7 "9 - 2 = ?") 6
  /\ score (gameState c4) = 1
  /\ firstn 3 (userAnswers (gameState c4))
     = [mkUserAnswer 1 (Some 7) (Some true) (Some 19000);
        mkUserAnswer 2 None None (Some 22000);
        mkUserAnswer 3 (Some 6) (Some false) (Some 22500)].
Proof. vm_compute. repeat split. Qed.

(** C7.  A submission is turned down without any change to the game state
    (counters, score, records, question that can be answered) or to the
    clock when no question can be answered, when the record of the question
    already holds an answer, or when the input does not read as a number. *)
Theorem rejected_submission_no_change (now : Z) (c : Component) :
  truthy (canAnswerQuestionId (gameState c)) = false
  \/ (exists t, canAnswerQuestionId (gameState c) = Some t
                /\ alreadyAnswered t (userAnswers (gameState c)) = true)
  \/ parseInt (currentAnswer c) = None ->
  gameState (handleAnswerSubmit now c) = gameState c
  /\ timeRemaining (handleAnswerSubmit now c) = timeRemaining c
  /\ lastTickRef (handleAnswerSubmit now c) = lastTickRef c
  /\ countdownRef (handleAnswerSubmit now c) = countdownRef c
  /\ finalEndPendingRef (handleAnswerSubmit now c) = finalEndPendingRef c.
Proof.
  intros H.
  destruct (handleAnswerSubmit_cases now c)
    as (Ht & Hl & Hc & Hf & [Hgs|(t & v & q & Hcan & Hnz & Hdup & Hparse & _)]).
  - auto.
  - exfalso. destruct H as [H|[(t' & Hcan' & Hdup')|H]].
    + rewrite Hcan in H. simpl in H.
      destruct (Z.eqb_spec t 0); [contradiction|discriminate].
    + congruence.
    + congruence.
Qed.

Lemma rejected_submission_no_change_witness :
  gameState (handleAnswerSubmit 16500 (set_currentAnswer "seven" sampleOpen))
  = gameState sampleOpen.
Proof.
  pose (c := set_currentAnswer "seven" sampleOpen).
  assert (H : truthy (canAnswerQuestionId (gameState c)) = false
              \/ (exists t, canAnswerQuestionId (gameState c) = Some t
                            /\ alreadyAnswered t (userAnswers (gameState c)) = true)
              \/ parseInt (currentAnswer c) = None)
    by (right; right; vm_compute; reflexivity).
  exact (proj1 (rejected_submission_no_change 16500 c H)).
Defined.

(** The three ways a submission is turned down, on the sample session:
    before any question can be answered the handler returns silently; a
    second answer to the same question and an input that is not a number
    only set the feedback. *)
Example rejections :
  let early := set_currentAnswer "7" (run (sampleBoundaries 1 4) (started 0 sampleRnd)) in
  let once := handleAnswerSubmit 16500 (set_currentAnswer "7" sampleOpen) in
  let twice := handleAnswerSubmit 16800 (set_currentAnswer "8" once) in
  let words := handleAnswerSubmit 16500 (set_currentAnswer "seven" sampleOpen) in
  handleAnswerSubmit 13500 early = early
  /\ twice = set_currentAnswer "" (set_feedback AlreadyAnsweredMessage once)
  /\ words = set_feedback InvalidNumberMessage (set_currentAnswer "seven" sampleOpen).
Proof. vm_compute. repeat split. Qed.

End Submission.

(** ** The answer records *)

Section Records.

Lemma fillSlots_answers (slots : nat) (i : Z) (qs : list Question)
    (ans : list UserAnswer) (rnd : nat -> Draw) (pos : nat) :
  snd (fst (fillSlots slots i qs ans rnd pos)) = ans ++ map openAnswer (iota i slots).
Proof.
  revert i qs ans pos. induction slots as [|slots IH]; intros i qs ans pos; simpl.
  - now rewrite app_nil_r.
  - destruct (drawSlot i qs rnd pos) as [[q a] pos'].
    rewrite IH, <- app_assoc. reflexivity.
Qed.

(** [startGame] creates the thirty records 1, ..., 30, all open. *)
Lemma startGame_answers (now : Z) (rnd : nat -> Draw) :
  userAnswers (startGame now rnd) = map openAnswer (iota 1 30).
Proof.
  unfold startGame.
  pose proof (fillSlots_answers (Z.to_nat TOTAL_QUESTIONS) 1 [] [] rnd 0) as H.
  destruct (fillSlots _ _ _ _ _ _) as [[qs ans] pos]. simpl in *. exact H.
Qed.

Lemma iota_lower (i : Z) (n : nat) (x : Z) : In x (iota i n) -> i <= x.
Proof.
  revert i. induction n as [|n IH]; intros i; simpl; [tauto|].
  intros [H|H]; [lia|]. apply IH in H. lia.
Qed.

Lemma iota_NoDup (i : Z) (n : nat) : NoDup (iota i n).
Proof.
  revert i. induction n as [|n IH]; intros i; simpl; constructor.
  - intros H. apply iota_lower in H. lia.
  - apply IH.
Qed.

Lemma markProcessed_ids (now : Z) (target : option Z) (answers : list UserAnswer) :
  map questionId (markProcessed now target answers) = map questionId answers.
Proof.
  unfold markProcessed. rewrite map_map. apply map_ext.
  intros a. destruct (isId _ _); reflexivity.
Qed.

Lemma recordAnswer_ids (now t v : Z) (b : bool) (answers : list UserAnswer) :
  map questionId (recordAnswer now t v b answers) = map questionId answers.
Proof.
  unfold recordAnswer. rewrite map_map. apply map_ext.
  intros a. destruct (_ =? _); reflexivity.
Qed.

(** The records a period boundary leaves: the old ones, or the old ones
    with the record of the question that could be answered stamped. *)
Lemma periodBoundary_userAnswers (now : Z) (c : Component) :
  userAnswers (gameState (periodBoundary now c)) = userAnswers (gameState c)
  \/ userAnswers (gameState (periodBoundary now c))
     = markProcessed now (canAnswerQuestionId (gameState c)) (userAnswers (gameState c)).
Proof.
  destruct c as [[qc ac qs uas sc st en act can] cur fb tr lt cd fin].
  unfold periodBoundary, advance, endGame. simpl.
  destruct fin; simpl; [now left|].
  destruct act; simpl; [|now left].
  destruct (_ && _); simpl; [|now left].
  destruct (truthy can); destruct (_ <=? _); simpl; auto.
Qed.

Lemma fire_userAnswers (ev : Event) (c : Component) :
  userAnswers (gameState (fire ev c)) = userAnswers (gameState c)
  \/ (exists b, ev = Boundary b
                /\ userAnswers (gameState (fire ev c))
                   = markProcessed b (canAnswerQuestionId (gameState c))
                       (userAnswers (gameState c)))
  \/ (exists now t v k, ev = Submit now
                /\ alreadyAnswered t (userAnswers (gameState c)) = false
                /\ userAnswers (gameState (fire ev c))
                   = recordAnswer now t v k (userAnswers (gameState c))).
Proof.
  destruct ev as [b|s|now]; simpl.
  - destruct (countdownRef c); [|now left].
    destruct (periodBoundary_userAnswers b c) as [H|H]; [now left|].
    right; left. now exists b.
  - destruct (formShown c); now left.
  - destruct (formShown c); [|now left].
    destruct (handleAnswerSubmit_cases now c)
      as (_ & _ & _ & _ & [H|(t & v & q & _ & _ & Hdup & _ & _ & H)]).
    + left. now rewrite H.
    + right; right. exists now, t, v, (v =? correctAnswer q).
      repeat split; trivial. rewrite H. cbv zeta.
      destruct (_ && _); reflexivity.
Qed.

Lemma run_ids (now : Z) (rnd : nat -> Draw) (evs : list Event) :
  map questionId (userAnswers (gameState (run evs (started now rnd)))) = iota 1 30.
Proof.
  induction evs as [|ev evs IH] using rev_ind.
  - unfold started, showFirst, pressStart. simpl.
    rewrite startGame_answers, map_map. simpl. reflexivity.
  - rewrite run_snoc.
    destruct (fire_userAnswers ev (run evs (started now rnd)))
      as [H|[(b & _ & H)|(t0 & t & v & k & _ & _ & H)]]; rewrite H.
    + exact IH.
    + now rewrite markProcessed_ids.
    + now rewrite recordAnswer_ids.
Qed.

Lemma findAnswer_unique (t : Z) (answers : list UserAnswer) (r : UserAnswer) :
  NoDup (map questionId answers) -> In r answers -> questionId r = t ->
  findAnswer t answers = Some r.
Proof.
  unfold findAnswer. induction answers as [|a answers IH]; simpl; [tauto|].
  intros Hnd [Hr|Hr] Hid.
  - subst a. now rewrite Hid, Z.eqb_refl.
  - inversion Hnd as [|? ? Hnot Hnd']; subst.
    destruct (Z.eqb_spec (questionId a) (questionId r)) as [E|E].
    + exfalso. apply Hnot. rewrite E. now apply in_map.
    + now apply IH.
Qed.

Lemma Forall2_map_in (R : UserAnswer -> UserAnswer -> Prop)
    (f : UserAnswer -> UserAnswer) (l : list UserAnswer) :
  (forall r, In r l -> R r (f r)) -> Forall2 R l (map f l).
Proof.
  induction l as [|a l IH]; simpl; intros H; constructor.
  - apply H. now left.
  - apply IH. intros r Hr. apply H. now right.
Qed.

(** Between the fifth and the 33rd boundary the next boundary moves the
    window and stamps the record of the question that could be answered. *)
Lemma periodBoundary_moves (n b : Z) (c : Component) :
  shape n c -> 5 <= n <= 33 ->
  userAnswers (gameState (periodBoundary b c))
  = markProcessed b (Some (n - 4)) (userAnswers (gameState c)).
Proof.
  intros (Hq & Ha & Hc & H33 & _) Hn.
  destruct (H33 (proj2 Hn)) as (Hact & Hfin & _).
  destruct c as [[qc ac qs uas sc st en act can] cur fb tr lt cd fin].
  simpl in *. subst.
  destruct (Z.ltb_spec n 5); [lia|].
  replace (Z.min (n - 4) 30) with (n - 4) by lia.
  unfold periodBoundary, advance, TOTAL_QUESTIONS. simpl.
  replace (Z.min (n + 1) 30 <? 30) with (n <? 29)
    by (destruct (Z.ltb_spec n 29), (Z.ltb_spec (Z.min (n + 1) 30) 30); trivial; lia).
  destruct (Z.ltb_spec n 29).
  - replace (Z.min (n + 1) 30 + 1 =? 6) with false by (symmetry; apply Z.eqb_neq; lia).
    replace (6 <? Z.min (n + 1) 30 + 1) with true by (symmetry; apply Z.ltb_lt; lia).
    replace (0 <? n - 4) with true by (symmetry; apply Z.ltb_lt; lia).
    replace (n - 4 <? 30) with true by (symmetry; apply Z.ltb_lt; lia).
    replace (n - 4 =? 0) with false by (symmetry; apply Z.eqb_neq; lia).
    simpl. destruct (30 <=? n - 4 + 1); reflexivity.
  - replace (Z.min (n + 1) 30 =? 6) with false by (symmetry; apply Z.eqb_neq; lia).
    replace (6 <? Z.min (n + 1) 30) with true by (symmetry; apply Z.ltb_lt; lia).
    replace (0 <? n - 4) with true by (symmetry; apply Z.ltb_lt; lia).
    replace (n - 4 <? 30) with true by (symmetry; apply Z.ltb_lt; lia).
    replace (n - 4 =? 0) with false by (symmetry; apply Z.eqb_neq; lia).
    simpl. destruct (30 <=? n - 4 + 1); reflexivity.
Qed.

Lemma markProcessed_stamps (b t : Z) (answers : list UserAnswer) :
  Forall (fun r => questionId r = t -> answeredAt r = Some b)
    (markProcessed b (Some t) answers).
Proof.
  unfold markProcessed. apply Forall_map, Forall_forall. intros r _. simpl.
  destruct (Z.eqb_spec (questionId r) t); simpl; [reflexivity|contradiction].
Qed.

(** C3, as the specification has it, fails: in the sample session question
    1 is answered at 16500 and the boundary at 19000 moves its processing
    time to 19000. *)
Lemma boundary_overwrites_answeredAt : ~ boundary_spares_answered.
Proof.
  intros H.
  specialize (H 0 sampleRnd (sampleBoundaries 1 5 ++ [Typed "7"; Submit 16500]) 19000).
  vm_compute in H.
  inversion H as [|r r' l l' Hhd _]; subst.
  destruct Hhd as [Habs _]; discriminate.
Qed.

End Records.

(** ** The end of a session *)

Section Finish.

(** C1: what the code does.  With no submission at all the 35th boundary
    ends the session, at its own time; the 34th has stamped record 29, and
    record 30 is left as [startGame] created it, without a processing
    time. *)
Theorem timeout_leaves_last_record_open (now : Z) (rnd : nat -> Draw) (t : nat -> Z) :
  let armed := run (silentBoundaries t 1 34) (started now rnd) in
  let c := run (silentBoundaries t 1 35) (started now rnd) in
  answerCounter (gameState armed) = 30
  /\ finalEndPendingRef armed = true
  /\ isGameActive (gameState armed) = true
  /\ isGameActive (gameState c) = false
  /\ gameEndTime (gameState c) = Some (t 35%nat)
  /\ countdownRef c = false
  /\ findAnswer 29 (userAnswers (gameState c)) = Some (mkUserAnswer 29 None None (Some (t 34%nat)))
  /\ findAnswer 30 (userAnswers (gameState c)) = Some (openAnswer 30).
Proof.
  cbv zeta. unfold started, showFirst, pressStart.
  pose proof (startGame_answers now rnd) as Hans.
  unfold startGame in *.
  destruct (fillSlots _ _ _ _ _ _) as [[qs ans] pos].
  simpl in Hans. subst ans.
  vm_compute. repeat split.
Qed.

(** Once the final wait is pending a submission does not call it off: the
    next boundary takes the path of the automatic end and sets the end
    time again. *)
Lemma timeout_after_submission (now b : Z) (c : Component) :
  finalEndPendingRef c = true ->
  gameState (periodBoundary b (handleAnswerSubmit now c))
  = endGame b (gameState (handleAnswerSubmit now c)).
Proof.
  intros Hfin.
  destruct (handleAnswerSubmit_cases now c) as (_ & _ & _ & Hf & _).
  unfold periodBoundary. rewrite Hf, Hfin. reflexivity.
Qed.

(** C2: what the code does.  In the sample session question 30 (1 + 1) is
    answered at 104500, during the final wait.  The submission ends the
    session at 104500 but leaves the interval registered and the final
    wait pending, and the boundary at 106000 ends the session once more,
    at 106000. *)
Theorem end_time_overwritten_after_last_answer :
  let c1 := run [Typed "2"; Submit 104500] sampleLast in
  let c2 := fire (Boundary 106000) c1 in
  answerCounter (gameState sampleLast) = 30
  /\ canAnswerQuestionId (gameState sampleLast) = Some 30
  /\ isGameActive (gameState sampleLast) = true
  /\ isGameActive (gameState c1) = false
  /\ gameEndTime (gameState c1) = Some 104500
  /\ score (gameState c1) = 1
  /\ countdownRef c1 = true
  /\ finalEndPendingRef c1 = true
  /\ isGameActive (gameState c2) = false
  /\ gameEndTime (gameState c2) = Some 106000.
Proof. vm_compute. repeat split. Qed.

End Finish.

(** ** The question generator *)

Section Generator.

Variables (i : Z) (initialQuestions : list Question) (rnd : nat -> Draw).

(** The do-while: it stops with [attempts] between 1 and 20, has drawn
    once per attempt, returns its last draw, and every draw before the
    last one repeated the previous question; the last draw does not, or it
    is the one that took [attempts] to 20. *)
Lemma doWhile_spec (fuel : nat) (attempts : Z) (pos : nat) :
  attempts + Z.of_nat fuel = 19 ->
  let '(q, attempts', pos') := doWhile fuel attempts i initialQuestions rnd pos in
  attempts < attempts' <= 20
  /\ Z.of_nat pos' = Z.of_nat pos + (attempts' - attempts)
  /\ q = generateQuestion i (rnd (pos' - 1)%nat)
  /\ (sameAsLast q initialQuestions = false \/ attempts' = 20)
  /\ (forall k, (pos <= k < pos' - 1)%nat ->
                sameAsLast (generateQuestion i (rnd k)) initialQuestions = true).
Proof.
  revert attempts pos. induction fuel as [|fuel IH]; intros attempts pos Hfuel.
  - simpl doWhile.
    replace (attempts + 1 <? 20) with false by (symmetry; apply Z.ltb_ge; lia).
    simpl. replace (pos - 0)%nat with pos by lia.
    repeat split; lia.
  - cbn [doWhile]. cbv zeta.
    destruct (Z.ltb_spec (attempts + 1) 20) as [Hlt|Hge]; [|lia].
    destruct (sameAsLast (generateQuestion i (rnd pos)) initialQuestions) eqn:Hsame;
      cbn [andb].
    + specialize (IH (attempts + 1) (S pos) ltac:(lia)).
      destruct (doWhile fuel (attempts + 1) i initialQuestions rnd (S pos))
        as [[q a'] pos'].
      destruct IH as (Ha & Hpos & Hq & Hlast & Hprev).
      repeat split; trivial; try lia.
      intros k Hk. destruct (Nat.eq_dec k pos) as [->|Hne]; trivial.
      apply Hprev. lia.
    + simpl. replace (pos - 0)%nat with pos by lia.
      repeat split; try lia. now left.
Qed.

(** One slot of [startGame]: between 1 and 20 draws, that is at most 19
    draws after the first. *)
Lemma drawSlot_spec (pos : nat) :
  let '(q, attempts, pos') := drawSlot i initialQuestions rnd pos in
  1 <= attempts <= 20
  /\ Z.of_nat pos' = Z.of_nat pos + attempts
  /\ q = generateQuestion i (rnd (pos' - 1)%nat)
  /\ (sameAsLast q initialQuestions = false \/ attempts = 20)
  /\ (forall k, (pos <= k < pos' - 1)%nat ->
                sameAsLast (generateQuestion i (rnd k)) initialQuestions = true).
Proof.
  unfold drawSlot.
  pose proof (doWhile_spec 19 0 pos eq_refl) as H.
  destruct (doWhile 19 0 i initialQuestions rnd pos) as [[q a] pos'].
  destruct H as (Ha & Hpos & Hq & Hlast & Hprev).
  repeat split; trivial; lia.
Qed.

End Generator.

(** With a random source whose first 21 draws are all 3 + 4, slot 2 makes
    twenty draws and takes the twentieth although it repeats question 1; the
    next draw in the stream (1 + 1) is left for slot 3. *)
Example twentieth_draw_is_taken :
  let q1 := generateQuestion 1 (stubbornRnd 0) in
  drawSlot 1 [] stubbornRnd 0 = (q1, 1, 1%nat)
  /\ drawSlot 2 [q1] stubbornRnd 1 = (generateQuestion 2 (stubbornRnd 20), 20, 21%nat)
  /\ sameAsLast (generateQuestion 2 (stubbornRnd 20)) [q1] = true
  /\ sameAsLast (generateQuestion 2 (stubbornRnd 21)) [q1] = false
  /\ map questionText (firstn 3 (questions (startGame 0 stubbornRnd)))
     = ["3 + 4 = ?"; "3 + 4 = ?"; "1 + 1 = ?"].
Proof. vm_compute. repeat split. Qed.

(** ** More on the leaderboard *)

Module LeaderboardMore.
Import Leaderboard LeaderboardSpec.

Lemma ranksBefore_trans (a b c : LeaderboardEntry) :
  ranksBefore a b -> ranksBefore b c -> ranksBefore a c.
Proof. unfold ranksBefore. lia. Qed.

Lemma sort_strongly (l : list LeaderboardEntry) : StronglySorted ranksBefore (sort l).
Proof.
  apply Sorted_StronglySorted.
  - intros a b c. apply ranksBefore_trans.
  - apply sort_ordered.
Qed.

Lemma In_firstn (n : nat) (l : list LeaderboardEntry) (x : LeaderboardEntry) :
  In x (firstn n l) -> In x l.
Proof.
  intros H. rewrite <- (firstn_skipn n l). apply in_or_app. now left.
Qed.

Lemma firstn_strongly (n : nat) (l : list LeaderboardEntry) :
  StronglySorted ranksBefore l -> StronglySorted ranksBefore (firstn n l).
Proof.
  revert l. induction n as [|n IH]; intros [|x l] Hl; simpl; try constructor.
  - apply IH. now inversion Hl.
  - inversion Hl as [|? ? _ Hall]; subst.
    rewrite Forall_forall in *. intros y Hy. apply Hall.
    now apply In_firstn in Hy.
Qed.

Lemma sortAndTrim_stored (l : list LeaderboardEntry) (x : LeaderboardEntry) :
  In x (sortAndTrim l) -> In x l.
Proof.
  unfold sortAndTrim. intros H. apply In_firstn in H.
  now apply (Permutation_in _ (sort_perm l)).
Qed.

(** Whatever the store holds, the board that is read is ranked (every entry
    has a score above, or the same score and a time not above, every entry
    after it), has at most 100 entries, and shows only stored entries. *)
Theorem board_is_ranked (st : Item) :
  StronglySorted ranksBefore (readLeaderboard st)
  /\ (List.length (readLeaderboard st) <= 100)%nat
  /\ Forall (fun x => match st with Stored data => In x data | _ => False end)
       (readLeaderboard st).
Proof.
  destruct st as [| |data]; simpl.
  - repeat split; try lia; constructor.
  - repeat split; try lia; constructor.
  - split; [|split].
    + apply firstn_strongly, sort_strongly.
    + apply sortAndTrim_length.
    + apply Forall_forall. intros x. apply sortAndTrim_stored.
Qed.

(** Reading gives back what writing returned, and writing back what was
    read changes nothing that is read afterwards. *)
Theorem write_read_round_trip (entries : list LeaderboardEntry) (st : Item) :
  readLeaderboard (fst (writeLeaderboard entries)) = snd (writeLeaderboard entries)
  /\ readLeaderboard (fst (writeLeaderboard (readLeaderboard st))) = readLeaderboard st
  /\ snd (writeLeaderboard (readLeaderboard st)) = readLeaderboard st.
Proof.
  unfold writeLeaderboard. simpl.
  split; [apply sortAndTrim_idem|].
  destruct st as [| |data]; simpl; try (split; reflexivity).
  rewrite !sortAndTrim_idem. split; reflexivity.
Qed.

(** A store without the key, or with content that does not parse, reads as
    the empty board, and the first entry added to it is the whole board. *)
Theorem empty_store (entry : LeaderboardEntry) :
  readLeaderboard Missing = []
  /\ readLeaderboard Unparsable = []
  /\ addLeaderboardEntry entry Missing = (Stored [entry], [entry])
  /\ addLeaderboardEntry entry Unparsable = (Stored [entry], [entry]).
Proof. repeat split. Qed.

Lemma sort_length (l : list LeaderboardEntry) : List.length (sort l) = List.length l.
Proof. apply Permutation_length, sort_perm. Qed.

Lemma add_result (entry : LeaderboardEntry) (data : list LeaderboardEntry) :
  snd (addLeaderboardEntry entry (Stored data)) = sortAndTrim (data ++ [entry]).
Proof.
  unfold addLeaderboardEntry, writeLeaderboard. simpl. apply sortAndTrim_snoc.
Qed.

(** An added entry makes the board one longer until it has 100 entries. *)
Theorem add_length (entry : LeaderboardEntry) (data : list LeaderboardEntry) :
  List.length (snd (addLeaderboardEntry entry (Stored data)))
  = Nat.min (List.length data + 1) 100.
Proof.
  rewrite add_result. unfold sortAndTrim.
  rewrite length_firstn, sort_length, length_app.
  change (List.length [entry]) with 1%nat. lia.
Qed.

(** While fewer than 100 entries are stored, an added entry is on the board
    and no stored entry leaves it. *)
Theorem add_with_room (entry : LeaderboardEntry) (data : list LeaderboardEntry) :
  (List.length data < 100)%nat ->
  Permutation (snd (addLeaderboardEntry entry (Stored data))) (entry :: data).
Proof.
  intros Hroom. rewrite add_result. unfold sortAndTrim.
  rewrite firstn_all2 by (rewrite sort_length, length_app; simpl; lia).
  rewrite sort_perm. apply Permutation_sym, Permutation_cons_append.
Qed.

Lemma add_with_room_witness :
  Permutation (snd (addLeaderboardEntry entryC (Stored [entryA; entryB])))
    [entryC; entryA; entryB].
Proof.
  apply add_with_room. simpl. lia.
Defined.

Lemma firstn_insertLast_behind (n : nat) (e : LeaderboardEntry)
    (s : list LeaderboardEntry) :
  (n <= List.length s)%nat ->
  forallb (fun y => compare y e <=? 0) (firstn n s) = true ->
  firstn n (insertLast e s) = firstn n s.
Proof.
  revert s. induction n as [|n IH]; intros s Hlen Hall; [reflexivity|].
  destruct s as [|y s]; simpl in Hlen; [lia|].
  cbn [firstn forallb] in Hall. apply andb_prop in Hall as [Hy Hall].
  cbn [insertLast]. rewrite Hy. cbn [firstn]. f_equal.
  apply IH; [lia|exact Hall].
Qed.

(** On a full board an entry that ranks behind all 100 entries shown is not
    taken: the board stays as it was. *)
Theorem add_behind_full_board (entry : LeaderboardEntry) (data : list LeaderboardEntry) :
  (100 <= List.length data)%nat ->
  forallb (fun y => compare y entry <=? 0) (readLeaderboard (Stored data)) = true ->
  snd (addLeaderboardEntry entry (Stored data)) = readLeaderboard (Stored data).
Proof.
  intros Hfull Hall. rewrite add_result. simpl in *. unfold sortAndTrim in *.
  rewrite sort_snoc. apply firstn_insertLast_behind; trivial.
  now rewrite sort_length.
Qed.

Lemma add_behind_full_board_witness :
  snd (addLeaderboardEntry entryC (Stored (repeat entryB 60 ++ repeat entryA 40)))
  = readLeaderboard (Stored (repeat entryB 60 ++ repeat entryA 40)).
Proof.
  apply add_behind_full_board.
  - rewrite length_app, !repeat_length. lia.
  - vm_compute. reflexivity.
Defined.

(** The best stored entry heads the board: it ranks before every stored
    entry, also before those cut off behind place 100. *)
Theorem best_on_top (data : list LeaderboardEntry) (x : LeaderboardEntry) :
  In x data ->
  exists top rest, readLeaderboard (Stored data) = top :: rest /\ ranksBefore top x.
Proof.
  intros Hx. simpl. unfold sortAndTrim.
  pose proof (sort_strongly data) as Hs.
  assert (Hin : In x (sort data)) by now apply (Permutation_in _ (Permutation_sym (sort_perm data))).
  destruct (sort data) as [|top rest]; [contradiction|].
  exists top, (firstn 99 rest). split; [reflexivity|].
  inversion Hs as [|? ? _ Hall]; subst.
  destruct Hin as [->|Hin].
  - unfold ranksBefore. lia.
  - rewrite Forall_forall in Hall. now apply Hall.
Qed.

Lemma best_on_top_witness :
  exists top rest,
    readLeaderboard (Stored [entryC; entryA; entryB]) = top :: rest /\ ranksBefore top entryC.
Proof.
  apply best_on_top. simpl. auto.
Defined.

End LeaderboardMore.

(** ** More on the generator *)

Section GeneratorMore.

(** Whatever the draw, a subtraction is never negative, the answer is the
    result of the operation shown, and the question carries the number it
    was asked for. *)
Lemma generateQuestion_consistent (i : Z) (d : Draw) :
  let q := generateQuestion i d in
  id q = i
  /\ correctAnswer q = match operator q with
                      | Plus => num1 q + num2 q
                      | Minus => num1 q - num2 q
                      end
  /\ (match operator q with Minus => num2 q <= num1 q | Plus => True end)
  /\ questionText q
     = (show (num1 q) ++ " " ++ operator_text (operator q) ++ " " ++ show (num2 q) ++ " = ?")%string.
Proof.
  unfold generateQuestion. destruct (aboveHalf d); simpl.
  - repeat split.
  - destruct (Z.ltb_spec (floorA d + 1) (floorB d + 1)); simpl; repeat split; lia.
Qed.

(** With [Math.floor(Math.random() * 10)] between 0 and 9, both operands are
    between 1 and 10, the answer is the result of the operation shown and
    lies between 0 and 20, and a subtraction has its larger operand first. *)
Theorem generateQuestion_ranges (i : Z) (d : Draw) :
  0 <= floorA d <= 9 -> 0 <= floorB d <= 9 ->
  let q := generateQuestion i d in
  id q = i
  /\ 1 <= num1 q <= 10
  /\ 1 <= num2 q <= 10
  /\ 0 <= correctAnswer q <= 20
  /\ correctAnswer q = match operator q with
                      | Plus => num1 q + num2 q
                      | Minus => num1 q - num2 q
                      end
  /\ (match operator q with Minus => num2 q <= num1 q | Plus => True end).
Proof.
  intros Ha Hb. unfold generateQuestion. destruct (aboveHalf d); simpl.
  - repeat split; lia.
  - destruct (Z.ltb_spec (floorA d + 1) (floorB d + 1)); simpl; repeat split; lia.
Qed.

Lemma generateQuestion_ranges_witness :
  0 <= correctAnswer (generateQuestion 3 (mkDraw 1 8 false)) <= 20.
Proof.
  apply (generateQuestion_ranges 3 (mkDraw 1 8 false)); simpl; lia.
Defined.

Lemma drawSlot_id (i : Z) (qs : list Question) (rnd : nat -> Draw) (pos : nat) :
  id (fst (fst (drawSlot i qs rnd pos))) = i.
Proof.
  pose proof (drawSlot_spec i qs rnd pos) as H.
  destruct (drawSlot i qs rnd pos) as [[q a] pos'].
  destruct H as (_ & _ & -> & _). apply generateQuestion_consistent.
Qed.

Lemma fillSlots_ids (slots : nat) (i : Z) (qs : list Question)
    (ans : list UserAnswer) (rnd : nat -> Draw) (pos : nat) :
  map id (fst (fst (fillSlots slots i qs ans rnd pos))) = map id qs ++ iota i slots.
Proof.
  revert i qs ans pos. induction slots as [|slots IH]; intros i qs ans pos; simpl.
  - now rewrite app_nil_r.
  - pose proof (drawSlot_id i qs rnd pos) as Hid.
    destruct (drawSlot i qs rnd pos) as [[q a] pos']. simpl in Hid.
    rewrite IH, map_app, <- app_assoc. simpl. now rewrite Hid.
Qed.

Lemma startGame_ids (now : Z) (rnd : nat -> Draw) :
  map id (questions (startGame now rnd)) = iota 1 30.
Proof.
  unfold startGame.
  pose proof (fillSlots_ids (Z.to_nat TOTAL_QUESTIONS) 1 [] [] rnd 0) as H.
  destruct (fillSlots _ _ _ _ _ _) as [[qs ans] pos]. exact H.
Qed.

(** The position in the random stream after the slots: at least one and at
    most twenty draws per slot. *)
Lemma fillSlots_draws (slots : nat) (i : Z) (qs : list Question)
    (ans : list UserAnswer) (rnd : nat -> Draw) (pos : nat) :
  (pos + slots <= snd (fillSlots slots i qs ans rnd pos) <= pos + 20 * slots)%nat.
Proof.
  revert i qs ans pos. induction slots as [|slots IH]; intros i qs ans pos; simpl.
  - lia.
  - pose proof (drawSlot_spec i qs rnd pos) as H.
    destruct (drawSlot i qs rnd pos) as [[q a] pos'].
    destruct H as (Ha & Hpos & _).
    specialize (IH (i + 1) (qs ++ [q]) (ans ++ [openAnswer i]) pos'). lia.
Qed.

(** [startGame] installs thirty questions numbered 1 to 30 in order and
    thirty open records numbered alike, with both counters and the score at
    0, the start time set, no end time, no question to answer, and the game
    active; it consumes between 30 and 600 draws. *)
Theorem startGame_state (now : Z) (rnd : nat -> Draw) :
  let g := startGame now rnd in
  map id (questions g) = iota 1 30
  /\ userAnswers g = map openAnswer (iota 1 30)
  /\ questionCounter g = 0 /\ answerCounter g = 0 /\ score g = 0
  /\ gameStartTime g = Some now /\ gameEndTime g = None
  /\ isGameActive g = true /\ canAnswerQuestionId g = None
  /\ (30 <= snd (fillSlots 30 1 [] [] rnd 0) <= 600)%nat.
Proof.
  cbv zeta. split; [apply startGame_ids|]. split; [apply startGame_answers|].
  assert (Hd : (30 <= snd (fillSlots 30 1 [] [] rnd 0) <= 600)%nat).
  { pose proof (fillSlots_draws 30 1 [] [] rnd 0). lia. }
  revert Hd. generalize (snd (fillSlots 30 1 [] [] rnd 0)). intros k Hd.
  unfold startGame. destruct (fillSlots (Z.to_nat TOTAL_QUESTIONS) _ _ _ _ _) as [[qs ans] pos].
  simpl. repeat split; lia.
Qed.

Lemma lastQuestion_snoc (qs : list Question) (p : Question) :
  lastQuestion (qs ++ [p]) = Some p.
Proof. unfold lastQuestion. now rewrite rev_app_distr. Qed.

Lemma lastQuestion_cons (a b : Question) (r : list Question) :
  lastQuestion (a :: b :: r) = lastQuestion (b :: r).
Proof.
  unfold lastQuestion. simpl.
  destruct (rev r) as [|x t]; reflexivity.
Qed.

Lemma sameAsLast_repeats (q p : Question) (qs : list Question) :
  lastQuestion qs = Some p -> sameAsLast q qs = repeats q p.
Proof. unfold sameAsLast. now intros ->. Qed.

(** Text and answer of a generated question do not depend on its number. *)
Lemma repeats_any_id (i j : Z) (d : Draw) (p : Question) :
  repeats (generateQuestion i d) p = repeats (generateQuestion j d) p.
Proof.
  unfold repeats, generateQuestion.
  destruct (aboveHalf d); [reflexivity|].
  destruct (floorA d + 1 <? floorB d + 1); reflexivity.
Qed.

Lemma neighbours_snoc (P : Question -> Question -> Prop) (qs : list Question)
    (q : Question) :
  neighbours P qs ->
  (forall p, lastQuestion qs = Some p -> P p q) ->
  neighbours P (qs ++ [q]).
Proof.
  induction qs as [|a qs IH]; intros Hn Hlast; [exact I|].
  destruct qs as [|b r].
  - simpl. split; [now apply Hlast|exact I].
  - destruct Hn as [Hab Hn]. split; [exact Hab|].
    apply IH; [exact Hn|].
    intros p Hp. apply Hlast. now rewrite lastQuestion_cons.
Qed.

(** What one slot guarantees against the question before it. *)
Lemma drawSlot_fresh (i : Z) (qs : list Question) (rnd : nat -> Draw) (pos : nat)
    (p : Question) :
  lastQuestion qs = Some p ->
  repeats (fst (fst (drawSlot i qs rnd pos))) p = false
  \/ exists pos0, exhausted rnd p pos0.
Proof.
  intros Hp. pose proof (drawSlot_spec i qs rnd pos) as H.
  destruct (drawSlot i qs rnd pos) as [[q a] pos']. simpl.
  destruct H as (Ha & Hpos & Hq & Hlast & Hprev).
  destruct (repeats q p) eqn:Hrep; [|now left].
  right. exists pos. intros j Hj.
  destruct Hlast as [Hfresh|H20].
  { rewrite (sameAsLast_repeats _ _ _ Hp) in Hfresh. congruence. }
  rewrite (repeats_any_id 0 i).
  destruct (Nat.eq_dec j 19) as [->|Hne].
  - replace (pos + 19)%nat with (pos' - 1)%nat by lia. now rewrite <- Hq.
  - rewrite <- (sameAsLast_repeats _ _ _ Hp). apply Hprev. lia.
Qed.

Lemma fillSlots_neighbours (rnd : nat -> Draw) (slots : nat) (i : Z)
    (qs : list Question) (ans : list UserAnswer) (pos : nat) :
  let P := fun p q => repeats q p = false \/ exists pos0, exhausted rnd p pos0 in
  neighbours P qs -> neighbours P (fst (fst (fillSlots slots i qs ans rnd pos))).
Proof.
  cbv zeta. revert i qs ans pos.
  induction slots as [|slots IH]; intros i qs ans pos Hn; simpl; [exact Hn|].
  pose proof (drawSlot_fresh i qs rnd pos) as Hf.
  destruct (drawSlot i qs rnd pos) as [[q a] pos']. simpl in Hf.
  apply IH. apply neighbours_snoc; [exact Hn|]. intros p Hp. now apply Hf.
Qed.

(** Every question [startGame] installs differs from the one before it in
    text and in answer, unless twenty draws in a row repeated that
    question. *)
Theorem startGame_neighbours (now : Z) (rnd : nat -> Draw) :
  neighbours (fun p q => repeats q p = false \/ exists pos, exhausted rnd p pos)
    (questions (startGame now rnd)).
Proof.
  pose proof (fillSlots_neighbours rnd (Z.to_nat TOTAL_QUESTIONS) 1 [] [] 0 I) as H.
  unfold startGame.
  destruct (fillSlots (Z.to_nat TOTAL_QUESTIONS) _ _ _ _ _) as [[qs ans] pos]. exact H.
Qed.

End GeneratorMore.

(** ** More on sessions *)

Section SessionMore.

Lemma accepted_fields (now t v : Z) (q : Question) (c : Component) (g' : GameState) :
  g' = (let next := answerUpdater now t v (v =? correctAnswer q) (gameState c) in
        if (t =? TOTAL_QUESTIONS) && (TOTAL_QUESTIONS <=? answerCounter (gameState c))
        then endGame now next else next) ->
  questions g' = questions (gameState c)
  /\ gameStartTime g' = gameStartTime (gameState c)
  /\ questionCounter g' = questionCounter (gameState c)
  /\ answerCounter g' = answerCounter (gameState c)
  /\ canAnswerQuestionId g' = canAnswerQuestionId (gameState c)
  /\ userAnswers g'
     = recordAnswer now t v (v =? correctAnswer q) (userAnswers (gameState c))
  /\ score g' = (if v =? correctAnswer q then score (gameState c) + 1
                 else score (gameState c))
  /\ (if (t =? TOTAL_QUESTIONS) && (TOTAL_QUESTIONS <=? answerCounter (gameState c))
      then isGameActive g' = false /\ gameEndTime g' = Some now
      else isGameActive g' = isGameActive (gameState c)
           /\ gameEndTime g' = gameEndTime (gameState c)).
Proof.
  intros ->. cbv zeta. destruct (_ && _); repeat split.
Qed.

(** No event touches the questions or the start time. *)
Lemma fire_constants (ev : Event) (c : Component) :
  questions (gameState (fire ev c)) = questions (gameState c)
  /\ gameStartTime (gameState (fire ev c)) = gameStartTime (gameState c).
Proof.
  destruct ev as [b|s|now]; simpl.
  - destruct (countdownRef c); [|split; reflexivity].
    destruct (periodBoundary_frame b c) as (_ & Hq & Hs & _). now split.
  - destruct (formShown c); split; reflexivity.
  - destruct (formShown c); [|split; reflexivity].
    destruct (handleAnswerSubmit_cases now c)
      as (_ & _ & _ & _ & [H|(t & v & q & _ & _ & _ & _ & _ & H)]).
    + rewrite H. split; reflexivity.
    + destruct (accepted_fields now t v q c _ H) as (Hq & Hs & _). now split.
Qed.

Lemma run_constants (now : Z) (rnd : nat -> Draw) (evs : list Event) :
  questions (gameState (run evs (started now rnd))) = questions (startGame now rnd)
  /\ gameStartTime (gameState (run evs (started now rnd))) = Some now.
Proof.
  induction evs as [|ev evs IH] using rev_ind.
  - unfold started, showFirst, pressStart. simpl.
    split; [reflexivity|]. unfold startGame.
    destruct (fillSlots _ _ _ _ _ _) as [[qs ans] pos]. reflexivity.
  - rewrite run_snoc.
    destruct (fire_constants ev (run evs (started now rnd))) as (-> & ->). exact IH.
Qed.

Lemma run_active_end (now : Z) (rnd : nat -> Draw) (evs : list Event) :
  let g := gameState (run evs (started now rnd)) in
  isGameActive g = match gameEndTime g with None => true | Some _ => false end.
Proof.
  cbv zeta. induction evs as [|ev evs IH] using rev_ind.
  - unfold started, showFirst, pressStart, startGame.
    destruct (fillSlots _ _ _ _ _ _) as [[qs ans] pos]. reflexivity.
  - rewrite run_snoc. set (c := run evs (started now rnd)) in *.
    destruct ev as [b|s|t0]; simpl.
    + destruct (countdownRef c); [|exact IH].
      destruct (periodBoundary_frame b c) as (_ & _ & _ & H).
      destruct (finalEndPendingRef c).
      * destruct H as (-> & _). reflexivity.
      * destruct H as (-> & ->). exact IH.
    + destruct (formShown c); exact IH.
    + destruct (formShown c); [|exact IH].
      destruct (handleAnswerSubmit_cases t0 c)
        as (_ & _ & _ & _ & [H|(t & v & q & _ & _ & _ & _ & _ & H)]).
      * rewrite H. exact IH.
      * destruct (accepted_fields t0 t v q c _ H) as (_ & _ & _ & _ & _ & _ & _ & Hend).
        destruct (_ && _).
        -- destruct Hend as (-> & ->). reflexivity.
        -- destruct Hend as (-> & ->). exact IH.
Qed.

Lemma iota_In (i : Z) (n : nat) (x : Z) :
  i <= x < i + Z.of_nat n -> In x (iota i n).
Proof.
  revert i. induction n as [|n IH]; intros i Hx; [lia|].
  simpl. destruct (Z.eq_dec i x); [now left|]. right. apply IH. lia.
Qed.

Lemma correctCount_cons (a : UserAnswer) (l : list UserAnswer) :
  correctCount (a :: l)
  = (match isCorrect a with Some true => 1 | _ => 0 end) + correctCount l.
Proof.
  unfold correctCount. simpl.
  destruct (isCorrect a) as [[|]|]; simpl List.length; lia.
Qed.

Lemma correctCount_markProcessed (now : Z) (target : option Z) (l : list UserAnswer) :
  correctCount (markProcessed now target l) = correctCount l.
Proof.
  induction l as [|a l IH]; [reflexivity|].
  change (markProcessed now target (a :: l))
    with ((if isId (questionId a) target
           then mkUserAnswer (questionId a) (userAnswer a) (isCorrect a) (Some now)
           else a) :: markProcessed now target l).
  rewrite !correctCount_cons, IH. destruct (isId _ _); reflexivity.
Qed.

Lemma recordAnswer_absent (now t v : Z) (k : bool) (l : list UserAnswer) :
  ~ In t (map questionId l) -> recordAnswer now t v k l = l.
Proof.
  induction l as [|a l IH]; intros Hnot; [reflexivity|].
  simpl in *. destruct (Z.eqb_spec (questionId a) t); [tauto|].
  f_equal. apply IH. tauto.
Qed.

(** An accepted answer adds exactly its own verdict to the number of
    correct records. *)
Lemma correctCount_recordAnswer (now t v : Z) (k : bool) (l : list UserAnswer) :
  NoDup (map questionId l) -> In t (map questionId l) ->
  alreadyAnswered t l = false -> Forall verdictWithAnswer l ->
  correctCount (recordAnswer now t v k l) = correctCount l + (if k then 1 else 0).
Proof.
  unfold alreadyAnswered, findAnswer.
  induction l as [|a l IH]; intros Hnd Hin Hopen Hv; [contradiction|].
  inversion Hnd as [|? ? Hnot Hnd']; subst.
  inversion Hv as [|? ? Ha Hv']; subst.
  simpl in Hopen, Hin.
  change (recordAnswer now t v k (a :: l))
    with ((if questionId a =? t
           then mkUserAnswer (questionId a) (Some v) (Some k) (Some now)
           else a) :: recordAnswer now t v k l).
  rewrite !correctCount_cons.
  destruct (Z.eqb_spec (questionId a) t) as [E|E].
  - rewrite recordAnswer_absent by (rewrite <- E; exact Hnot).
    unfold verdictWithAnswer in Ha.
    destruct (userAnswer a); [discriminate|]. rewrite Ha. simpl.
    destruct k; lia.
  - destruct Hin as [Hin|Hin]; [contradiction|].
    rewrite (IH Hnd' Hin Hopen Hv'). lia.
Qed.

Lemma verdict_markProcessed (now : Z) (target : option Z) (l : list UserAnswer) :
  Forall verdictWithAnswer l -> Forall verdictWithAnswer (markProcessed now target l).
Proof.
  intros H. apply Forall_map. revert H. apply Forall_impl.
  intros a Ha. destruct (isId _ _); exact Ha.
Qed.

Lemma verdict_recordAnswer (now t v : Z) (k : bool) (l : list UserAnswer) :
  Forall verdictWithAnswer l -> Forall verdictWithAnswer (recordAnswer now t v k l).
Proof.
  intros H. apply Forall_map. revert H. apply Forall_impl.
  intros a Ha. destruct (_ =? _); [|exact Ha].
  unfold verdictWithAnswer. simpl. discriminate.
Qed.

(** The question that can be answered has a record. *)
Lemma run_target_has_record (now : Z) (rnd : nat -> Draw) (evs : list Event) (t : Z) :
  canAnswerQuestionId (gameState (run evs (started now rnd))) = Some t ->
  In t (map questionId (userAnswers (gameState (run evs (started now rnd))))).
Proof.
  intros Hcan. rewrite run_ids.
  destruct (run_shape now rnd evs) as (_ & _ & Hc & _).
  rewrite Hcan in Hc. destruct (Z.ltb_spec (boundaries evs) 5); [discriminate|].
  injection Hc as ->. apply iota_In. simpl. lia.
Qed.

Lemma run_score (now : Z) (rnd : nat -> Draw) (evs : list Event) :
  let g := gameState (run evs (started now rnd)) in
  Forall verdictWithAnswer (userAnswers g)
  /\ score g = correctCount (userAnswers g).
Proof.
  cbv zeta. induction evs as [|ev evs IH] using rev_ind.
  - pose proof (startGame_answers now rnd) as Hans.
    unfold started, showFirst, pressStart. unfold startGame in *.
    destruct (fillSlots _ _ _ _ _ _) as [[qs ans] pos]. simpl in *. subst ans.
    split; [|reflexivity].
    apply Forall_forall. intros x Hx.
    repeat (destruct Hx as [<-|Hx]; [exact eq_refl|]). contradiction.
  - rewrite run_snoc.
    pose proof (run_ids now rnd evs) as Hids.
    pose proof (run_target_has_record now rnd evs) as Hrec.
    set (c := run evs (started now rnd)) in *.
    destruct IH as (Hv & Hs).
    destruct ev as [b|s|t0]; simpl.
    + destruct (countdownRef c); [|now split].
      destruct (periodBoundary_frame b c) as (-> & _).
      destruct (periodBoundary_userAnswers b c) as [->| ->]; [now split|].
      split; [now apply verdict_markProcessed|].
      now rewrite correctCount_markProcessed.
    + destruct (formShown c); now split.
    + destruct (formShown c); [|now split].
      destruct (handleAnswerSubmit_cases t0 c)
        as (_ & _ & _ & _ & [H|(t & v & q & Hcan & _ & Hopen & _ & _ & H)]).
      * rewrite H. now split.
      * destruct (accepted_fields t0 t v q c _ H)
          as (_ & _ & _ & _ & _ & -> & -> & _).
        split; [now apply verdict_recordAnswer|].
        rewrite correctCount_recordAnswer; trivial.
        -- rewrite Hs. destruct (v =? correctAnswer q); lia.
        -- rewrite Hids. apply iota_NoDup.
        -- now apply Hrec.
Qed.

Lemma correctCount_bounds (l : list UserAnswer) :
  0 <= correctCount l <= Z.of_nat (List.length l).
Proof.
  unfold correctCount. pose proof (filter_length_le
    (fun a => match isCorrect a with Some true => true | _ => false end) l). lia.
Qed.

(** In every state of a session the score is the number of records marked
    correct, it lies between 0 and 30, and a record has a verdict exactly
    when it has an answer. *)
Theorem score_counts_correct (now : Z) (rnd : nat -> Draw) (evs : list Event) :
  let g := gameState (run evs (started now rnd)) in
  score g = correctCount (userAnswers g)
  /\ 0 <= score g <= 30
  /\ Forall verdictWithAnswer (userAnswers g).
Proof.
  cbv zeta. destruct (run_score now rnd evs) as (Hv & Hs).
  split; [exact Hs|]. split; [|exact Hv].
  rewrite Hs. pose proof (correctCount_bounds
    (userAnswers (gameState (run evs (started now rnd))))) as Hb.
  assert (Hlen : List.length (userAnswers (gameState (run evs (started now rnd)))) = 30%nat).
  { rewrite <- (length_map questionId), run_ids. reflexivity. }
  rewrite Hlen in Hb. lia.
Qed.

Lemma markProcessed_none (b : Z) (l : list UserAnswer) : markProcessed b None l = l.
Proof. unfold markProcessed. simpl. apply map_id. Qed.

Lemma run_id_range (now : Z) (rnd : nat -> Draw) (evs : list Event) :
  Forall (fun r => 1 <= questionId r <= 30)
    (userAnswers (gameState (run evs (started now rnd)))).
Proof.
  apply Forall_forall. intros r Hr.
  apply (in_map questionId) in Hr. rewrite run_ids in Hr.
  simpl in Hr. repeat (destruct Hr as [<-|Hr]; [lia|]). contradiction.
Qed.

Lemma placed_weaken (e e' : Z) (l : list UserAnswer) :
  Forall (fun r => 1 <= questionId r <= 30) l ->
  (e = e' \/ (e = 0 /\ e' <= 1)) ->
  Forall (placed e) l -> Forall (placed e') l.
Proof.
  intros Hid He Hp. rewrite Forall_forall in *. intros r Hr.
  specialize (Hid r Hr). specialize (Hp r Hr). unfold placed in *.
  destruct Hp as (Ho & Ha). destruct He as [->|(-> & He)]; [now split|].
  destruct (Z.ltb_spec 0 (questionId r)); [|lia].
  destruct (Z.ltb_spec e' (questionId r)), (Z.ltb_spec (questionId r) e');
    try lia; split; trivial.
Qed.

Lemma placed_markProcessed (b e : Z) (l : list UserAnswer) :
  Forall (placed e) l -> Forall (placed (e + 1)) (markProcessed b (Some e) l).
Proof.
  intros H. apply Forall_map. revert H. apply Forall_impl.
  intros r (Ho & Ha). unfold placed. simpl.
  destruct (Z.eqb_spec (questionId r) e) as [E|E]; simpl.
  - destruct (Z.ltb_spec (e + 1) (questionId r)); [lia|].
    destruct (Z.ltb_spec (questionId r) (e + 1)); [|lia]. split; [exact I|discriminate].
  - destruct (Z.ltb_spec (e + 1) (questionId r)), (Z.ltb_spec e (questionId r)),
      (Z.ltb_spec (questionId r) (e + 1)), (Z.ltb_spec (questionId r) e);
      try lia; split; trivial.
Qed.

Lemma placed_recordAnswer (now e v : Z) (k : bool) (l : list UserAnswer) :
  Forall (placed e) l -> Forall (placed e) (recordAnswer now e v k l).
Proof.
  intros H. apply Forall_map. revert H. apply Forall_impl.
  intros r Hr. destruct (Z.eqb_spec (questionId r) e) as [E|E]; [|exact Hr].
  unfold placed. simpl.
  destruct (Z.ltb_spec e (questionId r)), (Z.ltb_spec (questionId r) e);
    try lia; split; trivial.
Qed.

Lemma run_window (now : Z) (rnd : nat -> Draw) (evs : list Event) :
  Forall (placed (eligibleAfter (boundaries evs)))
    (userAnswers (gameState (run evs (started now rnd)))).
Proof.
  induction evs as [|ev evs IH] using rev_ind.
  - pose proof (startGame_answers now rnd) as Hans.
    unfold started, showFirst, pressStart. unfold startGame in *.
    destruct (fillSlots _ _ _ _ _ _) as [[qs ans] pos]. simpl in *. subst ans.
    apply Forall_forall. intros x Hx.
    repeat (destruct Hx as [<-|Hx]; [split; exact I || reflexivity|]). contradiction.
  - rewrite run_snoc, boundaries_snoc.
    pose proof (boundaries_nonneg evs) as Hn.
    pose proof (run_shape now rnd evs) as Hs.
    pose proof (run_id_range now rnd evs) as Hid.
    set (c := run evs (started now rnd)) in *. set (n := boundaries evs) in *.
    destruct ev as [b|s|t0]; simpl fire.
    + destruct (countdownRef c) eqn:Hcd.
      * pose proof Hs as Hs'.
        destruct Hs as (Hq & Ha & Hc & H33 & H34 & H35).
        assert (n < 5 \/ 5 <= n <= 33 \/ n = 34) as [Hlow|[Hmid|Hlast]].
        { destruct (Z.le_gt_cases 35 n) as [H|H]; [|lia].
          destruct (H35 H) as (_ & _ & ?). congruence. }
        -- assert (Hsame : userAnswers (gameState (periodBoundary b c))
                           = userAnswers (gameState c)).
           { destruct (periodBoundary_userAnswers b c) as [H|H]; [exact H|].
             rewrite H, Hc. destruct (Z.ltb_spec n 5); [|lia].
             apply markProcessed_none. }
           rewrite Hsame. apply (placed_weaken (eligibleAfter n)); trivial.
           unfold eligibleAfter.
           destruct (Z.ltb_spec n 5), (Z.ltb_spec (n + 1) 5); lia.
        -- rewrite (@periodBoundary_moves n b c Hs' Hmid).
           replace (eligibleAfter (n + 1)) with (n - 4 + 1)
             by (unfold eligibleAfter; destruct (Z.ltb_spec (n + 1) 5); lia).
           apply placed_markProcessed.
           replace (n - 4) with (eligibleAfter n)
             by (unfold eligibleAfter; destruct (Z.ltb_spec n 5); lia).
           exact IH.
        -- destruct (H34 Hlast) as (Hfin & _).
           destruct (periodBoundary_frame b c) as (_ & _ & _ & H).
           rewrite Hfin in H. destruct H as (_ & _ & _ & -> & _).
           apply (placed_weaken (eligibleAfter n)); trivial.
           left. unfold eligibleAfter.
           destruct (Z.ltb_spec n 5), (Z.ltb_spec (n + 1) 5); lia.
      * destruct Hs as (_ & _ & _ & H33 & H34 & _).
        assert (35 <= n).
        { destruct (Z.le_gt_cases 35 n) as [H|H]; trivial.
          assert (n <= 33 \/ n = 34) as [H'|H'] by lia.
          - destruct (H33 H') as (_ & _ & ?). congruence.
          - destruct (H34 H') as (_ & ?). congruence. }
        apply (placed_weaken (eligibleAfter n)); trivial.
        left. unfold eligibleAfter.
        destruct (Z.ltb_spec n 5), (Z.ltb_spec (n + 1) 5); lia.
    + rewrite Z.add_0_r. destruct (formShown c); exact IH.
    + rewrite Z.add_0_r. destruct (formShown c); [|exact IH].
      destruct (handleAnswerSubmit_cases t0 c)
        as (_ & _ & _ & _ & [H|(t & v & q & Hcan & _ & _ & _ & _ & H)]).
      * rewrite H. exact IH.
      * destruct (accepted_fields t0 t v q c _ H) as (_ & _ & _ & _ & _ & -> & _).
        destruct Hs as (_ & _ & Hc & _). rewrite Hcan in Hc.
        assert (t = eligibleAfter n) as ->.
        { unfold eligibleAfter. destruct (Z.ltb_spec n 5); congruence. }
        now apply placed_recordAnswer.
Qed.

(** The records follow the window: after [n] period boundaries every record
    of a question behind the one that can be answered is still as
    [startGame] made it, and every record of a question before it has a
    processing time.  With no question to answer yet, all records are
    untouched. *)
Theorem records_follow_window (now : Z) (rnd : nat -> Draw) (evs : list Event) :
  let g := gameState (run evs (started now rnd)) in
  let e := eligibleAfter (boundaries evs) in
  canAnswerQuestionId g = (if e =? 0 then None else Some e)
  /\ Forall (placed e) (userAnswers g).
Proof.
  cbv zeta. split; [|apply run_window].
  destruct (run_shape now rnd evs) as (_ & _ & -> & _).
  pose proof (boundaries_nonneg evs).
  unfold eligibleAfter. destruct (Z.ltb_spec (boundaries evs) 5); [reflexivity|].
  destruct (Z.eqb_spec (Z.min (boundaries evs - 4) 30) 0); [lia|reflexivity].
Qed.

Lemma iota_nth (i : Z) (n k : nat) :
  (k < n)%nat -> nth_error (iota i n) k = Some (i + Z.of_nat k).
Proof.
  revert i k. induction n as [|n IH]; intros i k Hk; [lia|].
  destruct k as [|k]; simpl.
  - f_equal. lia.
  - rewrite IH by lia. f_equal. lia.
Qed.

Lemma question_at (qs : list Question) (k : nat) :
  map id qs = iota 1 30 -> (k < 30)%nat ->
  exists q, nth_error qs k = Some q /\ id q = 1 + Z.of_nat k.
Proof.
  intros Hids Hk.
  pose proof (iota_nth 1 30 k Hk) as Hn. rewrite <- Hids, nth_error_map in Hn.
  revert Hn. destruct (nth_error qs k) as [q|]; simpl; intros Hn; [|discriminate].
  exists q. split; [reflexivity|]. congruence.
Qed.

Lemma find_by_id (A : Type) (key : A -> Z) (l : list A) (t : Z) :
  In t (map key l) ->
  exists a, find (fun x => key x =? t) l = Some a /\ key a = t /\ In a l.
Proof.
  induction l as [|x l IH]; simpl; [tauto|]. intros Hin.
  destruct (Z.eqb_spec (key x) t) as [E|E].
  - exists x. auto.
  - destruct Hin as [Hin|Hin]; [contradiction|].
    destruct (IH Hin) as (a & Ha & Hk & Hi). exists a. auto.
Qed.

Lemma run_question_ids (now : Z) (rnd : nat -> Draw) (evs : list Event) :
  map id (questions (gameState (run evs (started now rnd)))) = iota 1 30.
Proof.
  destruct (run_constants now rnd evs) as (-> & _). apply startGame_ids.
Qed.

(** What the game view shows after [n] period boundaries: the question on
    display is the one numbered min(n + 1, 30); the question asked for is
    the one that can be answered; while questions are still being revealed
    (5 <= n <= 28) it is the one shown five periods ago; and the text of
    question 30 is on display during one period only (n = 29). *)
Theorem view_of_session (now : Z) (rnd : nat -> Draw) (evs : list Event) :
  let g := gameState (run evs (started now rnd)) in
  let n := boundaries evs in
  (exists q, currentQuestion g = Some q /\ id q = Z.min (n + 1) 30)
  /\ match canAnswerQuestion g with
     | Some q => canAnswerQuestionId g = Some (id q)
     | None => canAnswerQuestionId g = None
     end
  /\ hideLastQuestionText g = (30 <=? n)
  /\ (if (5 <=? n) && (n <=? 28)
      then canAnswerQuestionId g = Some (questionCounter g - 5)
      else True).
Proof.
  cbv zeta.
  pose proof (boundaries_nonneg evs) as Hn.
  pose proof (run_question_ids now rnd evs) as Hids.
  destruct (run_shape now rnd evs) as (Hq & _ & Hc & _).
  set (g := gameState (run evs (started now rnd))) in *.
  set (n := boundaries evs) in *.
  split; [|split; [|split]].
  - unfold currentQuestion. rewrite Hq.
    destruct (Z.ltb_spec (Z.min (n + 1) 30 - 1) 0); [lia|].
    destruct (@question_at (questions g) (Z.to_nat (Z.min (n + 1) 30 - 1)) Hids
                ltac:(lia)) as (q & Hnth & Hid).
    exists q. split; [exact Hnth|]. lia.
  - unfold canAnswerQuestion. rewrite Hc.
    destruct (Z.ltb_spec n 5).
    + assert (E : forall l, find (fun q => isId (id q) None) l = None)
        by (induction l; simpl; auto).
      now rewrite E.
    + destruct (@find_by_id Question id (questions g) (Z.min (n - 4) 30))
        as (q & Hf & Hid & _).
      { rewrite Hids. apply iota_In. simpl. lia. }
      change (find (fun q => isId (id q) (Some (Z.min (n - 4) 30))) (questions g))
        with (find (fun q => id q =? Z.min (n - 4) 30) (questions g)).
      rewrite Hf. now rewrite Hid.
  - unfold hideLastQuestionText, TOTAL_QUESTIONS. rewrite Hq, Hc.
    destruct (Z.ltb_spec n 5); tests; simpl; try lia; reflexivity.
  - rewrite Hq, Hc.
    destruct (Z.leb_spec 5 n); simpl; [|exact I].
    destruct (Z.leb_spec n 28); simpl; [|exact I].
    destruct (Z.ltb_spec n 5); [lia|]. f_equal. lia.
Qed.

(** The results exist exactly when the session is over.  They then give the
    time from start to end, the score, which is the number of correct
    records, and one detail per question, in order, each with the record of
    its question. *)
Theorem results_of_session (now : Z) (rnd : nat -> Draw) (evs : list Event) :
  let g := gameState (run evs (started now rnd)) in
  match buildResults g with
  | None => isGameActive g = true
  | Some r =>
      isGameActive g = false
      /\ gameEndTime g = Some (now + Results.totalTime r)
      /\ Results.totalQuestions r = 30
      /\ Results.score r = score g
      /\ Results.correctAnswers r = correctCount (userAnswers g)
      /\ map fst (Results.questionDetails r) = questions g
      /\ Forall (fun d => exists a, snd d = Some a
                                   /\ questionId a = id (fst d)
                                   /\ In a (userAnswers g))
           (Results.questionDetails r)
  end.
Proof.
  cbv zeta.
  pose proof (run_question_ids now rnd evs) as Hids.
  pose proof (run_ids now rnd evs) as Haids.
  pose proof (run_active_end now rnd evs) as Hact. cbv zeta in Hact.
  destruct (run_constants now rnd evs) as (_ & Hstart).
  destruct (run_score now rnd evs) as (_ & Hscore).
  set (g := gameState (run evs (started now rnd))) in *.
  unfold buildResults. rewrite Hstart.
  destruct (gameEndTime g) as [ended|]; [|exact Hact].
  destruct (questions g) as [|q0 qs] eqn:Hqs; [discriminate|].
  rewrite Hact. simpl.
  repeat split; trivial.
  - f_equal. lia.
  - f_equal. rewrite map_map. simpl. apply map_id.
  - constructor.
    + simpl. apply (@find_by_id UserAnswer questionId). rewrite Haids, <- Hids.
      now left.
    + apply Forall_map, Forall_forall. intros q Hq. simpl.
      apply (@find_by_id UserAnswer questionId). rewrite Haids, <- Hids.
      right. now apply in_map.
Qed.

End SessionMore.

(** ** More on the handler, the clock and restarting *)

Section ClockMore.

(** A submission never touches the counters, the question that can be
    answered, the questions, the start time or the clock; it changes the
    score by 0 or 1; and it ends the game only when the question that can be
    answered is question 30 and the answer counter has reached 30, at the
    time of the submission. *)
Theorem submission_frame (now : Z) (c : Component) :
  let g := gameState c in
  let g' := gameState (handleAnswerSubmit now c) in
  questionCounter g' = questionCounter g
  /\ answerCounter g' = answerCounter g
  /\ canAnswerQuestionId g' = canAnswerQuestionId g
  /\ questions g' = questions g
  /\ gameStartTime g' = gameStartTime g
  /\ timeRemaining (handleAnswerSubmit now c) = timeRemaining c
  /\ lastTickRef (handleAnswerSubmit now c) = lastTickRef c
  /\ countdownRef (handleAnswerSubmit now c) = countdownRef c
  /\ finalEndPendingRef (handleAnswerSubmit now c) = finalEndPendingRef c
  /\ score g <= score g' <= score g + 1
  /\ ((isGameActive g' = isGameActive g /\ gameEndTime g' = gameEndTime g)
      \/ (canAnswerQuestionId g = Some 30 /\ 30 <= answerCounter g
          /\ isGameActive g' = false /\ gameEndTime g' = Some now)).
Proof.
  cbv zeta.
  destruct (handleAnswerSubmit_cases now c)
    as (Ht & Hl & Hc & Hf & [H|(t & v & q & Hcan & _ & _ & _ & _ & H)]).
  - rewrite H. repeat split; trivial; try lia. now left.
  - destruct (accepted_fields now t v q c _ H)
      as (Hqs & Hst & Hqc & Hac & Hcn & _ & Hsc & Hend).
    repeat split; trivial.
    + rewrite Hsc. destruct (v =? correctAnswer q); lia.
    + rewrite Hsc. destruct (v =? correctAnswer q); lia.
    + unfold TOTAL_QUESTIONS in Hend.
      destruct (Z.eqb_spec t 30) as [->|]; simpl in Hend; [|now left].
      destruct (Z.leb_spec 30 (answerCounter (gameState c))); simpl in Hend; [|now left].
      right. destruct Hend. auto.
Qed.

Lemma ticks_snoc (times : list Z) (t : Z) (c : Component) :
  ticks (times ++ [t]) c = tick t (ticks times c).
Proof. unfold ticks. now rewrite fold_left_app. Qed.

(** While more than 100 ms remain the interval only counts down. *)
Lemma ticks_countdown (times : list Z) (c : Component) :
  timeRemaining c = 100 + 100 * Z.of_nat (List.length times) ->
  ticks times c = set_timeRemaining 100 c.
Proof.
  revert c. induction times as [|t times IH]; intros c Hrem.
  - simpl in *. destruct c; simpl in *. now subst.
  - change (ticks (t :: times) c) with (ticks times (tick t c)).
    change (List.length (t :: times)) with (S (List.length times)) in Hrem.
    assert (Htick : tick t c = set_timeRemaining (timeRemaining c - 100) c).
    { unfold tick. destruct (Z.leb_spec (timeRemaining c) 100); [lia|reflexivity]. }
    rewrite Htick, IH.
    + reflexivity.
    + change (timeRemaining c - 100 = 100 + 100 * Z.of_nat (List.length times)). lia.
Qed.

(** One period is thirty firings of the interval: from a full period the
    first 29 only count the remaining time down to 100 ms, and the 30th
    resets it and is the period boundary, unless it comes less than 100 ms
    after the last boundary, in which case it only resets the remaining
    time. *)
Theorem thirty_ticks_a_period (times : list Z) (t : Z) (c : Component) :
  timeRemaining c = QUESTION_DELAY ->
  List.length times = 29%nat ->
  ticks times c = set_timeRemaining 100 c
  /\ ticks (times ++ [t]) c
     = if t - lastTickRef c <? 100 then c
       else periodBoundary t (set_lastTickRef t c).
Proof.
  intros Hrem Hlen.
  assert (H29 : ticks times c = set_timeRemaining 100 c).
  { apply ticks_countdown. rewrite Hrem, Hlen. reflexivity. }
  split; [exact H29|].
  rewrite ticks_snoc, H29. unfold tick. simpl.
  destruct c as [g cur fb tr lt cd fin]. simpl in *. subst tr.
  destruct (t - lt <? 100); reflexivity.
Qed.

Lemma thirty_ticks_a_period_witness :
  gameState (ticks (map (fun k => 1000 + 100 * Z.of_nat k) (seq 1 30)) (started 0 sampleRnd))
  = gameState (periodBoundary 4000 (started 0 sampleRnd)).
Proof.
  pose proof (thirty_ticks_a_period
                (map (fun k => 1000 + 100 * Z.of_nat k) (seq 1 29)) 4000
                (started 0 sampleRnd) eq_refl eq_refl) as [_ H].
  change (map (fun k => 1000 + 100 * Z.of_nat k) (seq 1 30))
    with (map (fun k => 1000 + 100 * Z.of_nat k) (seq 1 29) ++ [4000]).
  rewrite H. vm_compute. reflexivity.
Defined.

Lemma restart_clean (now : Z) (rnd : nat -> Draw) (c : Component) :
  countdownRef c = false -> finalEndPendingRef c = false ->
  showFirst (pressStart now rnd c) = started now rnd.
Proof.
  intros Hcd Hfin. destruct c as [g cur fb tr lt cd fin]. simpl in *. subst.
  reflexivity.
Qed.

(** Restarting after the automatic end gives the component of a first
    start: the session that follows is a session like any other. *)
Theorem restart_after_timeout (now now' : Z) (rnd rnd' : nat -> Draw)
    (evs : list Event) :
  35 <= boundaries evs ->
  showFirst (pressStart now' rnd' (run evs (started now rnd))) = started now' rnd'.
Proof.
  intros Hn. destruct (run_shape now rnd evs) as (_ & _ & _ & _ & _ & H35).
  destruct (H35 Hn) as (_ & Hfin & Hcd). now apply restart_clean.
Qed.

Lemma restart_after_timeout_witness :
  showFirst (pressStart 200000 stubbornRnd
               (run (sampleBoundaries 1 35) (started 0 sampleRnd)))
  = started 200000 stubbornRnd.
Proof.
  apply restart_after_timeout. vm_compute. discriminate.
Defined.

End ClockMore.

(** ** Reading back a printed number *)

Section ReadBack.

Lemma readDigits_uint (d : Decimal.uint) (a : Z) :
  readDigits 10 (NilEmpty.string_of_uint d) (Some a) = Some (uintValue a d).
Proof.
  revert a. induction d; intros a; simpl; try reflexivity; apply IHd.
Qed.

Lemma readDigits_uint_start (d : Decimal.uint) :
  d <> Decimal.Nil ->
  readDigits 10 (NilEmpty.string_of_uint d) None = Some (uintValue 0 d).
Proof.
  destruct d; intros Hd; [contradiction| | | | | | | | | |]; simpl; apply readDigits_uint.
Qed.

Lemma uintValue_acc (d : Decimal.uint) (a : positive) :
  uintValue (Zpos a) d = Zpos (Pos.of_uint_acc d a).
Proof.
  revert a. induction d; intros a; cbn [uintValue Pos.of_uint_acc];
    try reflexivity; rewrite <- IHd; f_equal; lia.
Qed.

Lemma uintValue_of_uint (d : Decimal.uint) :
  uintValue 0 d = Z.of_N (Pos.of_uint d).
Proof.
  induction d; cbn [uintValue Pos.of_uint]; try reflexivity; try exact IHd;
    cbn [Z.of_N]; rewrite <- uintValue_acc; reflexivity.
Qed.

Lemma to_uint_not_nil (p : positive) : Pos.to_uint p <> Decimal.Nil.
Proof.
  intros H. pose proof (DecimalPos.Unsigned.of_to p) as E.
  rewrite H in E. discriminate.
Qed.

Lemma uintValue_to_uint (p : positive) : uintValue 0 (Pos.to_uint p) = Zpos p.
Proof.
  rewrite uintValue_of_uint, DecimalPos.Unsigned.of_to. reflexivity.
Qed.

(** A string that starts with a decimal digit is read from its first
    character, in base 10, with or without a minus sign in front. *)
Lemma parseInt_uint (d : Decimal.uint) :
  d <> Decimal.Nil ->
  parseInt (NilEmpty.string_of_uint d) = Some (uintValue 0 d)
  /\ parseInt (String "-" (NilEmpty.string_of_uint d)) = Some (- uintValue 0 d).
Proof.
  intros Hd. pose proof (readDigits_uint_start d Hd) as Hr.
  assert (Hp : parseInt (NilEmpty.string_of_uint d)
               = match readDigits 10 (NilEmpty.string_of_uint d) None with
                 | None => None | Some m => Some (1 * m) end
               /\ parseInt (String "-" (NilEmpty.string_of_uint d))
                  = match readDigits 10 (NilEmpty.string_of_uint d) None with
                    | None => None | Some m => Some (-1 * m) end).
  { destruct d as [|d|d|d|d|d|d|d|d|d|d]; [contradiction|..];
      try (split; reflexivity); destruct d; split; reflexivity. }
  destruct Hp as (-> & ->). rewrite Hr. split; f_equal; lia.
Qed.

(** The decimal a number is printed as, as the question text prints its
    operands, is read back as that number by [parseInt], for every integer
    a double holds exactly (magnitude below 2^53): a typed answer that is
    the decimal of the correct answer is read as the correct answer. *)
Theorem parseInt_show (n : Z) :
  Z.abs n < 2 ^ 53 -> parseInt (show n) = Some n.
Proof.
  intros _. unfold show. destruct n as [|p|p].
  - reflexivity.
  - change (Z.to_int (Zpos p)) with (Decimal.Pos (Pos.to_uint p)).
    pose proof (to_uint_not_nil p) as Hd.
    destruct (parseInt_uint (Pos.to_uint p) Hd) as (H & _).
    unfold NilZero.string_of_int, NilZero.string_of_uint.
    destruct (Pos.to_uint p) eqn:E; [contradiction|..];
      rewrite H, <- E, uintValue_to_uint; reflexivity.
  - change (Z.to_int (Zneg p)) with (Decimal.Neg (Pos.to_uint p)).
    pose proof (to_uint_not_nil p) as Hd.
    destruct (parseInt_uint (Pos.to_uint p) Hd) as (_ & H).
    unfold NilZero.string_of_int, NilZero.string_of_uint.
    destruct (Pos.to_uint p) eqn:E; [contradiction|..];
      rewrite H, <- E, uintValue_to_uint; reflexivity.
Qed.

Lemma parseInt_show_witness : parseInt (show 17) = Some 17.
Proof.
  apply parseInt_show. vm_compute. reflexivity.
Defined.

End ReadBack.

(** ** From the end of a session to the leaderboard *)

Section Ending.

(** The boundary after the one that took the answer counter to 30 always
    takes the path of the automatic end: it stops the interval, clears the
    pending final wait and sets the end time to its own time, whether the
    session was still active or question 30 had been answered and the
    session was over already; nothing else of the game state changes. *)
Theorem final_boundary_sets_end_time (now b : Z) (rnd : nat -> Draw) (evs : list Event) :
  boundaries evs = 34 ->
  let c := run evs (started now rnd) in
  let c' := fire (Boundary b) c in
  gameState c' = endGame b (gameState c)
  /\ isGameActive (gameState c') = false
  /\ gameEndTime (gameState c') = Some b
  /\ countdownRef c' = false
  /\ finalEndPendingRef c' = false.
Proof.
  intros Hn. cbv zeta.
  destruct (run_shape now rnd evs) as (_ & _ & _ & _ & H34 & _).
  destruct (H34 Hn) as (Hfin & Hcd).
  destruct (run evs (started now rnd)) as [g cur fb tr lt cd fin].
  simpl in Hfin, Hcd. subst. repeat split.
Qed.

Lemma final_boundary_sets_end_time_witness :
  gameEndTime (gameState (fire (Boundary 106000)
                            (run (sampleBoundaries 1 34) (started 0 sampleRnd))))
  = Some 106000.
Proof.
  apply (final_boundary_sets_end_time 0 106000 sampleRnd (sampleBoundaries 1 34)).
  vm_compute. reflexivity.
Defined.

Lemma roundSeconds_near (x : Z) :
  1000 * roundSeconds x - 500 <= x < 1000 * roundSeconds x + 500.
Proof.
  unfold roundSeconds.
  pose proof (Z.div_mod (x + 500) 1000 ltac:(lia)).
  pose proof (Z.mod_pos_bound (x + 500) 1000 ltac:(lia)). lia.
Qed.

(** The entry a finished session puts on the board, for a name of
    characters below 128 that is not blank: the submit button is enabled
    and adds the entry with the number of correct records as score and the
    time from start to end rounded to the nearest second. *)
Theorem score_entry_of_session (now : Z) (rnd : nat -> Draw) (evs : list Event)
    (playerName nowISO : string) (st : Leaderboard.Item) (r : Results.GameResults) :
  buildResults (gameState (run evs (started now rnd))) = Some r ->
  isAsciiText playerName = true ->
  isEmpty (trim playerName) = false ->
  let g := gameState (run evs (started now rnd)) in
  let e := scoreEntry playerName r nowISO in
  submitScore playerName r nowISO st = Some (Leaderboard.addLeaderboardEntry e st)
  /\ Leaderboard.score e = correctCount (userAnswers g)
  /\ exists ended, gameEndTime g = Some ended
       /\ 1000 * Leaderboard.totalTime e - 500 <= ended - now
          < 1000 * Leaderboard.totalTime e + 500.
Proof.
  intros Hr _ Hname. cbv zeta.
  destruct (run_constants now rnd evs) as (_ & Hstart).
  destruct (run_score now rnd evs) as (_ & Hscore).
  set (g := gameState (run evs (started now rnd))) in *.
  unfold submitScore. rewrite Hname.
  split; [reflexivity|].
  unfold buildResults in Hr. rewrite Hstart in Hr.
  destruct (gameEndTime g) as [ended|]; [|discriminate].
  destruct (questions g); [discriminate|].
  destruct (isGameActive g); [discriminate|].
  injection Hr as <-. simpl.
  split; [exact Hscore|].
  exists ended. split; [reflexivity|]. apply roundSeconds_near.
Qed.

Lemma score_entry_of_session_witness :
  submitScore "  Ann " (Results.mkGameResults 30 0 0 106000
                 (map (fun q => (q, findAnswer (id q)
                        (userAnswers (gameState (run (sampleBoundaries 1 35) (started 0 sampleRnd))))))
                      (questions (gameState (run (sampleBoundaries 1 35) (started 0 sampleRnd))))))
    "2024-01-01T00:00:00.000Z" Leaderboard.Missing
  = Some (Leaderboard.Stored [Leaderboard.mkEntry "Ann" 0 106 "2024-01-01T00:00:00.000Z"],
          [Leaderboard.mkEntry "Ann" 0 106 "2024-01-01T00:00:00.000Z"]).
Proof.
  assert (H1 : buildResults (gameState (run (sampleBoundaries 1 35) (started 0 sampleRnd)))
               = Some (Results.mkGameResults 30 0 0 106000
                 (map (fun q => (q, findAnswer (id q)
                        (userAnswers (gameState (run (sampleBoundaries 1 35) (started 0 sampleRnd))))))
                      (questions (gameState (run (sampleBoundaries 1 35) (started 0 sampleRnd)))))))
    by (vm_compute; reflexivity).
  assert (H2 : isAsciiText "  Ann " = true) by (vm_compute; reflexivity).
  assert (H3 : isEmpty (trim "  Ann ") = false) by (vm_compute; reflexivity).
  destruct (score_entry_of_session 0 sampleRnd (sampleBoundaries 1 35) "  Ann "
              "2024-01-01T00:00:00.000Z" Leaderboard.Missing _ H1 H2 H3) as (H & _).
  rewrite H. vm_compute. reflexivity.
Defined.

End Ending.

(** ** An accepted submission, record by record *)

Section Accepted.

Lemma find_map_same_id (f : UserAnswer -> UserAnswer) (t : Z)
    (answers : list UserAnswer) (r : UserAnswer) :
  (forall a, questionId (f a) = questionId a) ->
  findAnswer t answers = Some r ->
  findAnswer t (map f answers) = Some (f r).
Proof.
  unfold findAnswer. intros Hid.
  induction answers as [|a answers IH]; simpl; [discriminate|].
  rewrite Hid. destruct (questionId a =? t); [congruence|exact IH].
Qed.

Lemma periodBoundary_answers_verdicts (b : Z) (c : Component) :
  map userAnswer (userAnswers (gameState (periodBoundary b c)))
  = map userAnswer (userAnswers (gameState c))
  /\ map isCorrect (userAnswers (gameState (periodBoundary b c)))
     = map isCorrect (userAnswers (gameState c)).
Proof.
  destruct (periodBoundary_userAnswers b c) as [-> | ->]; [split; reflexivity|].
  unfold markProcessed. rewrite !map_map.
  split; apply map_ext; intros a; destruct (isId _ _); reflexivity.
Qed.

(** C6.  A submission for the question [t] that can be answered, whose
    record exists and has no answer yet and whose input reads as the number
    [v]: the score goes up by exactly 1 when [v] is the correct answer and
    stays when it is not; the record of [t] becomes the record with answer
    [v], verdict [v = correctAnswer] and the time of the submission; every
    record of another question stays as it is.  A period boundary, which is
    what lets a question expire unanswered, changes neither the score nor
    the answer or the verdict of any record. *)
Theorem submission_scores (now : Z) (c : Component) (t v : Z) (q : Question)
    (r : UserAnswer) :
  canAnswerQuestionId (gameState c) = Some t ->
  t <> 0 ->
  findAnswer t (userAnswers (gameState c)) = Some r ->
  userAnswer r = None ->
  parseInt (currentAnswer c) = Some v ->
  findQuestion t (questions (gameState c)) = Some q ->
  let g := gameState c in
  let g' := gameState (handleAnswerSubmit now c) in
  let correct := v =? correctAnswer q in
  score g' = (if correct then score g + 1 else score g)
  /\ findAnswer t (userAnswers g') = Some (mkUserAnswer t (Some v) (Some correct) (Some now))
  /\ userAnswers g'
     = map (fun a => if questionId a =? t
                     then mkUserAnswer (questionId a) (Some v) (Some correct) (Some now)
                     else a)
         (userAnswers g)
  /\ (forall b,
        score (gameState (periodBoundary b c)) = score g
        /\ map userAnswer (userAnswers (gameState (periodBoundary b c)))
           = map userAnswer (userAnswers g)
        /\ map isCorrect (userAnswers (gameState (periodBoundary b c)))
           = map isCorrect (userAnswers g)).
Proof.
  intros Hcan Ht Hfind Hopen Hparse Hq. cbv zeta.
  assert (Hdup : alreadyAnswered t (userAnswers (gameState c)) = false).
  { unfold alreadyAnswered. now rewrite Hfind, Hopen. }
  assert (Hgs : gameState (handleAnswerSubmit now c)
                = let next := answerUpdater now t v (v =? correctAnswer q) (gameState c) in
                  if (t =? TOTAL_QUESTIONS) && (TOTAL_QUESTIONS <=? answerCounter (gameState c))
                  then endGame now next else next).
  { unfold handleAnswerSubmit.
    rewrite Hcan, Hdup, Hparse, Hq, (parseInt_nonblank _ _ Hparse).
    destruct (Z.eqb_spec t 0); [contradiction|]. simpl orb. cbv iota.
    cbv zeta. destruct (_ && _); reflexivity. }
  destruct (accepted_fields now t v q c _ Hgs) as (_ & _ & _ & _ & _ & Hua & Hsc & _).
  split; [exact Hsc|]. split; [|split].
  - rewrite Hua. unfold recordAnswer.
    rewrite (find_map_same_id _ t _ r) by
      (trivial; intros a; destruct (questionId a =? t); reflexivity).
    assert (Hid : questionId r = t).
    { unfold findAnswer in Hfind. apply find_some in Hfind as [_ H].
      now apply Z.eqb_eq. }
    rewrite Hid, Z.eqb_refl. reflexivity.
  - exact Hua.
  - intros b. split; [apply (periodBoundary_frame b c)|].
    apply periodBoundary_answers_verdicts.
Qed.

Lemma submission_scores_witness :
  score (gameState (handleAnswerSubmit 16500 (set_currentAnswer "7" sampleOpen))) = 1
  /\ findAnswer 1 (userAnswers
                     (gameState (handleAnswerSubmit 16500 (set_currentAnswer "7" sampleOpen))))
     = Some (mkUserAnswer 1 (Some 7) (Some true) (Some 16500))
  /\ score (gameState (periodBoundary 19000 (set_currentAnswer "7" sampleOpen))) = 0.
Proof.
  set (c := set_currentAnswer "7" sampleOpen).
  pose (q := mkQuestion 1 3 4 Plus 7 "3 + 4 = ?").
  assert (H1 : canAnswerQuestionId (gameState c) = Some 1) by (vm_compute; reflexivity).
  assert (H2 : 1 <> 0) by lia.
  assert (H3 : findAnswer 1 (userAnswers (gameState c)) = Some (openAnswer 1))
    by (vm_compute; reflexivity).
  assert (H3' : userAnswer (openAnswer 1) = None) by reflexivity.
  assert (H4 : parseInt (currentAnswer c) = Some 7) by (vm_compute; reflexivity).
  assert (H5 : findQuestion 1 (questions (gameState c)) = Some q)
    by (vm_compute; reflexivity).
  destruct (submission_scores 16500 c 1 7 q (openAnswer 1) H1 H2 H3 H3' H4 H5)
    as (Hs & Hr & _ & Hb).
  split; [|split].
  - rewrite Hs. vm_compute. reflexivity.
  - rewrite Hr. reflexivity.
  - destruct (Hb 19000) as (-> & _). vm_compute. reflexivity.
Defined.

End Accepted.

(** ** The retries of the generator *)

(** C9.  For every slot the generator draws again as long as the draw
    repeats the text or the answer of the question before it, up to twenty
    draws in all: it stops with [attempts] between 1 and 20, having drawn
    once per attempt; every draw before the accepted one repeated the
    previous question; the accepted question is the last draw, and it does
    not repeat the previous question unless it is the twentieth draw.  Hence
    every question [startGame] installs differs from the one before it in
    text and in answer, or twenty draws in a row repeated that question. *)
Theorem draws_until_fresh_or_twenty (i : Z) (initialQuestions : list Question)
    (rnd : nat -> Draw) (pos : nat) (now : Z) :
  (let '(q, attempts, pos') := drawSlot i initialQuestions rnd pos in
   1 <= attempts <= 20
   /\ Z.of_nat pos' = Z.of_nat pos + attempts
   /\ q = generateQuestion i (rnd (pos' - 1)%nat)
   /\ (forall k, (pos <= k < pos' - 1)%nat ->
                 sameAsLast (generateQuestion i (rnd k)) initialQuestions = true)
   /\ (sameAsLast q initialQuestions = false \/ attempts = 20))
  /\ neighbours (fun p q => repeats q p = false \/ exists pos0, exhausted rnd p pos0)
       (questions (startGame now rnd)).
Proof.
  split.
  - pose proof (drawSlot_spec i initialQuestions rnd pos) as H.
    destruct (drawSlot i initialQuestions rnd pos) as [[q a] pos'].
    destruct H as (Ha & Hpos & Hq & Hlast & Hprev). auto.
  - pose proof (fillSlots_neighbours rnd (Z.to_nat TOTAL_QUESTIONS) 1 [] [] 0 I) as H.
    unfold startGame.
    destruct (fillSlots (Z.to_nat TOTAL_QUESTIONS) _ _ _ _ _) as [[qs ans] p]. exact H.
Qed.

(** ** The records, event by event *)

Section RecordSteps.

(** The records a period boundary of a session leaves: it stamps the record
    of the question that could be answered when it moves the window, and
    touches no record otherwise. *)
Lemma boundary_records (now b : Z) (rnd : nat -> Draw) (evs : list Event) :
  let c := run evs (started now rnd) in
  let n := boundaries evs in
  userAnswers (gameState (fire (Boundary b) c))
  = if (5 <=? n) && (n <=? 33)
    then markProcessed b (Some (n - 4)) (userAnswers (gameState c))
    else userAnswers (gameState c).
Proof.
  cbv zeta. pose proof (run_shape now rnd evs) as Hs.
  pose proof (boundaries_nonneg evs) as Hn.
  set (c := run evs (started now rnd)) in *. set (n := boundaries evs) in *.
  cbn [fire]. destruct (countdownRef c) eqn:Hcd.
  - pose proof Hs as Hs'. destruct Hs as (_ & _ & Hc & H33 & H34 & H35).
    assert (n < 5 \/ 5 <= n <= 33 \/ n = 34) as [Hlow|[Hmid|Hlast]].
    { destruct (Z.le_gt_cases 35 n) as [H|H]; [|lia].
      destruct (H35 H) as (_ & _ & ?). congruence. }
    + destruct (Z.leb_spec 5 n) as [L|L]; [lia|]. simpl.
      destruct (periodBoundary_userAnswers b c) as [E|E]; [exact E|].
      rewrite E, Hc. destruct (Z.ltb_spec n 5); [|lia]. apply markProcessed_none.
    + destruct (Z.leb_spec 5 n) as [L|L]; [|lia].
      destruct (Z.leb_spec n 33) as [U|U]; [|lia]. simpl.
      exact (@periodBoundary_moves n b c Hs' Hmid).
    + destruct (Z.leb_spec n 33) as [U|U]; [lia|]. rewrite andb_false_r.
      destruct (H34 Hlast) as (Hfin & _).
      destruct (periodBoundary_frame b c) as (_ & _ & _ & E).
      rewrite Hfin in E. now destruct E as (_ & _ & _ & -> & _).
  - destruct Hs as (_ & _ & _ & H33 & _).
    destruct (Z.leb_spec n 33) as [U|U]; [|now rewrite andb_false_r].
    destruct (H33 U) as (_ & _ & ?). congruence.
Qed.

Lemma eligibleAfter_mono (n m : Z) : n <= m -> eligibleAfter n <= eligibleAfter m.
Proof.
  unfold eligibleAfter. intros H.
  destruct (Z.ltb_spec n 5), (Z.ltb_spec m 5); lia.
Qed.

(** The record of the question that can be answered is untouched or has
    been answered; it has not been skipped. *)
Lemma run_eligible (now : Z) (rnd : nat -> Draw) (evs : list Event) :
  Forall (fun r => questionId r = eligibleAfter (boundaries evs) ->
                   r = openAnswer (questionId r) \/ userAnswer r <> None)
    (userAnswers (gameState (run evs (started now rnd)))).
Proof.
  induction evs as [|ev evs IH] using rev_ind.
  - pose proof (run_id_range now rnd []) as Hid.
    revert Hid. apply Forall_impl. intros r Hid Hq.
    change (eligibleAfter (boundaries [])) with 0 in Hq. lia.
  - pose proof (run_window now rnd evs) as Hw.
    pose proof (run_id_range now rnd evs) as Hid.
    pose proof (fun b => boundary_records now b rnd evs) as Hb. cbv zeta in Hb.
    pose proof (boundaries_nonneg evs) as Hn.
    pose proof (run_shape now rnd evs) as Hs.
    rewrite run_snoc, boundaries_snoc.
    set (c := run evs (started now rnd)) in *. set (n := boundaries evs) in *.
    destruct ev as [b|s|t0].
    + rewrite Hb.
      destruct (Z.leb_spec 5 n) as [H5|H5]; simpl andb.
      * destruct (Z.leb_spec n 33) as [H33|H33].
        -- apply Forall_map. rewrite Forall_forall in *. intros r Hr.
           specialize (Hw r Hr). destruct Hw as (Ho & _).
           unfold eligibleAfter in *.
           destruct (Z.ltb_spec n 5); [lia|]. destruct (Z.ltb_spec (n + 1) 5); [lia|].
           simpl. destruct (Z.eqb_spec (questionId r) (n - 4)) as [E|E]; simpl; [lia|].
           intros Hq. left.
           destruct (Z.ltb_spec (Z.min (n - 4) 30) (questionId r)); [exact Ho|lia].
        -- replace (eligibleAfter (n + 1)) with (eligibleAfter n)
             by (unfold eligibleAfter;
                 destruct (Z.ltb_spec n 5), (Z.ltb_spec (n + 1) 5); lia).
           exact IH.
      * rewrite Forall_forall in *. intros r Hr Hq.
        specialize (Hw r Hr). specialize (Hid r Hr). destruct Hw as (Ho & _).
        left. unfold eligibleAfter in *.
        destruct (Z.ltb_spec n 5); [|lia].
        destruct (Z.ltb_spec 0 (questionId r)); [exact Ho|lia].
    + rewrite Z.add_0_r. cbn [fire]. destruct (formShown c); exact IH.
    + rewrite Z.add_0_r. cbn [fire]. destruct (formShown c); [|exact IH].
      destruct (handleAnswerSubmit_cases t0 c)
        as (_ & _ & _ & _ & [H|(t & v & q & _ & _ & _ & _ & _ & H)]).
      * rewrite H. exact IH.
      * destruct (accepted_fields t0 t v q c _ H) as (_ & _ & _ & _ & _ & -> & _).
        apply Forall_map. revert IH. apply Forall_impl. intros r Hr.
        destruct (questionId r =? t); simpl; [intros _; right; discriminate|exact Hr].
Qed.

Lemma Forall2_same (R : UserAnswer -> UserAnswer -> Prop) (l : list UserAnswer) :
  (forall r, R r r) -> Forall2 R l l.
Proof. intros H. induction l; constructor; auto. Qed.

Lemma fire_recordStep (now : Z) (rnd : nat -> Draw) (evs : list Event) (ev : Event) :
  let c := run evs (started now rnd) in
  Forall2 (recordStep (boundaries evs) ev)
    (userAnswers (gameState c)) (userAnswers (gameState (fire ev c))).
Proof.
  cbv zeta.
  pose proof (run_eligible now rnd evs) as He.
  pose proof (run_ids now rnd evs) as Hids.
  pose proof (run_shape now rnd evs) as Hs.
  pose proof (fun b => boundary_records now b rnd evs) as Hb. cbv zeta in Hb.
  set (c := run evs (started now rnd)) in *. set (n := boundaries evs) in *.
  destruct ev as [b|s|t0].
  - rewrite Hb.
    destruct (Z.leb_spec 5 n) as [H5|H5]; simpl andb;
      [|apply Forall2_same; now left].
    destruct (Z.leb_spec n 33) as [H33|H33]; [|apply Forall2_same; now left].
    apply Forall2_map_in. intros r Hr. rewrite Forall_forall in He.
    specialize (He r Hr). simpl.
    destruct (Z.eqb_spec (questionId r) (n - 4)) as [E|E]; [|now left].
    right; right. exists b. repeat split; trivial; try lia.
    apply He. unfold eligibleAfter. destruct (Z.ltb_spec n 5); lia.
  - cbn [fire]. destruct (formShown c); apply Forall2_same; now left.
  - cbn [fire]. destruct (formShown c); [|apply Forall2_same; now left].
    destruct (handleAnswerSubmit_cases t0 c)
      as (_ & _ & _ & _ & [H|(t & v & q & Hcan & _ & Hopen & _ & _ & H)]).
    + rewrite H. apply Forall2_same. now left.
    + destruct (accepted_fields t0 t v q c _ H) as (_ & _ & _ & _ & _ & -> & _).
      assert (Ht : t = eligibleAfter n).
      { destruct Hs as (_ & _ & Hc & _). rewrite Hcan in Hc.
        unfold eligibleAfter. destruct (Z.ltb_spec n 5); congruence. }
      apply Forall2_map_in. intros r Hr. rewrite Forall_forall in He.
      specialize (He r Hr).
      destruct (Z.eqb_spec (questionId r) t) as [E|E]; [|now left].
      right; left. exists t0, v, (v =? correctAnswer q).
      assert (Hnone : userAnswer r = None).
      { unfold alreadyAnswered in Hopen.
        rewrite (findAnswer_unique t _ r) in Hopen; trivial.
        - destruct (userAnswer r); [discriminate|reflexivity].
        - rewrite Hids. apply iota_NoDup. }
      repeat split; trivial; try congruence.
      destruct (He ltac:(congruence)) as [Ho|Ha]; [exact Ho|contradiction].
Qed.

Lemma boundaries_app (evs evs2 : list Event) :
  boundaries (evs ++ evs2) = boundaries evs + boundaries evs2.
Proof.
  unfold boundaries. rewrite filter_app, length_app. lia.
Qed.

Lemma Forall2_compose (P Q S : UserAnswer -> UserAnswer -> Prop)
    (l1 l2 l3 : list UserAnswer) :
  (forall a b c, P a b -> Q b c -> S a c) ->
  Forall2 P l1 l2 -> Forall2 Q l2 l3 -> Forall2 S l1 l3.
Proof.
  intros H H12. revert l3. induction H12; intros l3 H23; inversion H23; subst;
    constructor; eauto.
Qed.

Lemma recordStep_id (n : Z) (ev : Event) (r r' : UserAnswer) :
  recordStep n ev r r' ->
  questionId r' = questionId r
  /\ (r' = r \/ questionId r = eligibleAfter n).
Proof.
  intros [->|[(t0 & v & k & _ & Hid & _ & ->)|(b & _ & Hn & Hid & _ & ->)]]; simpl.
  - auto.
  - auto.
  - split; [reflexivity|]. right. unfold eligibleAfter.
    destruct (Z.ltb_spec n 5); lia.
Qed.

Lemma run_final (now : Z) (rnd : nat -> Draw) (evs evs2 : list Event) :
  Forall2 (finalBefore (eligibleAfter (boundaries evs)))
    (userAnswers (gameState (run evs (started now rnd))))
    (userAnswers (gameState (run (evs ++ evs2) (started now rnd)))).
Proof.
  induction evs2 as [|ev evs2 IH] using rev_ind.
  - rewrite app_nil_r. apply Forall2_same. intros r. unfold finalBefore.
    destruct (_ <? _); reflexivity.
  - rewrite app_assoc, run_snoc.
    pose proof (fire_recordStep now rnd (evs ++ evs2) ev) as Hstep. cbv zeta in Hstep.
    refine (Forall2_compose _ _ _ _ _ _ _ IH Hstep).
    intros a b c Hab Hbc. apply recordStep_id in Hbc as (Hid & Hch).
    pose proof (eligibleAfter_mono (boundaries evs) (boundaries (evs ++ evs2))) as Hm.
    rewrite boundaries_app in Hm. pose proof (boundaries_nonneg evs2).
    specialize (Hm ltac:(lia)). rewrite <- boundaries_app in Hm.
    unfold finalBefore in *.
    destruct (Z.ltb_spec (questionId a) (eligibleAfter (boundaries evs))).
    + subst b. destruct Hch as [->|Hch]; [reflexivity|lia].
    + congruence.
Qed.

(** C3, as the code has it.  Through any event of a session a record is
    resolved at most once and never reopened: a submission changes only the
    record of the question that can be answered, and only while it is as
    [startGame] made it; a period boundary changes a record only when it
    moves the window (5 <= n <= 33), then only the record of the question
    that could be answered, and of it only the processing time: it resolves
    the record when it was untouched, and when a submission had resolved it
    already it keeps the answer and the verdict and replaces the time of the
    submission by its own.  No other record changes, and once the window has
    moved past a record, no later event changes it. *)
Theorem records_settle (now : Z) (rnd : nat -> Draw) (evs evs2 : list Event)
    (ev : Event) (b : Z) :
  let c := run evs (started now rnd) in
  let n := boundaries evs in
  Forall2 (recordStep n ev)
    (userAnswers (gameState c)) (userAnswers (gameState (fire ev c)))
  /\ userAnswers (gameState (fire (Boundary b) c))
     = (if (5 <=? n) && (n <=? 33)
        then markProcessed b (Some (n - 4)) (userAnswers (gameState c))
        else userAnswers (gameState c))
  /\ Forall2 (finalBefore (eligibleAfter n))
       (userAnswers (gameState c))
       (userAnswers (gameState (run (evs ++ evs2) (started now rnd)))).
Proof.
  cbv zeta. split; [apply fire_recordStep|]. split; [apply boundary_records|].
  apply run_final.
Qed.

End RecordSteps.

(** ** Sessions after a restart *)

Section Restarts.

(** A session begun while no interval is registered and no final wait is
    pending, that is the first start and every restart after the automatic
    end, is active through its first 33 period boundaries and over from the
    35th on, and has an end time exactly when it is over. *)
Theorem session_lasts (now : Z) (rnd : nat -> Draw) (c0 : Component)
    (evs : list Event) :
  countdownRef c0 = false -> finalEndPendingRef c0 = false ->
  let g := gameState (run evs (showFirst (pressStart now rnd c0))) in
  let n := boundaries evs in
  isGameActive g = match gameEndTime g with None => true | Some _ => false end
  /\ (if n <=? 33 then isGameActive g = true else True)
  /\ (if 35 <=? n then isGameActive g = false else True).
Proof.
  intros Hcd Hfin. cbv zeta. rewrite (restart_clean now rnd c0 Hcd Hfin).
  split; [apply run_active_end|].
  destruct (run_shape now rnd evs) as (_ & _ & _ & H33 & _ & H35).
  split.
  - destruct (Z.leb_spec (boundaries evs) 33); [now apply H33|exact I].
  - destruct (Z.leb_spec 35 (boundaries evs)); [now apply H35|exact I].
Qed.

Lemma session_lasts_witness :
  let g := gameState (run (sampleBoundaries 1 35)
                        (showFirst (pressStart 0 sampleRnd mounted))) in
  isGameActive g = match gameEndTime g with None => true | Some _ => false end.
Proof.
  assert (H1 : countdownRef mounted = false) by reflexivity.
  assert (H2 : finalEndPendingRef mounted = false) by reflexivity.
  destruct (session_lasts 0 sampleRnd mounted (sampleBoundaries 1 35) H1 H2) as (H & _).
  exact H.
Defined.

(** No event makes a game that is over active again. *)
Lemma fire_stays_over (ev : Event) (c : Component) :
  isGameActive (gameState c) = false ->
  isGameActive (gameState (fire ev c)) = false.
Proof.
  intros Hover. destruct ev as [b|s|t0]; cbn [fire].
  - destruct (countdownRef c); [|exact Hover].
    destruct (periodBoundary_frame b c) as (_ & _ & _ & H).
    destruct (finalEndPendingRef c).
    + destruct H as (-> & _). reflexivity.
    + destruct H as (-> & _). exact Hover.
  - destruct (formShown c); exact Hover.
  - destruct (formShown c); [|exact Hover].
    destruct (handleAnswerSubmit_cases t0 c)
      as (_ & _ & _ & _ & [H|(t & v & q & _ & _ & _ & _ & _ & H)]).
    + now rewrite H.
    + destruct (accepted_fields t0 t v q c _ H) as (_ & _ & _ & _ & _ & _ & _ & Hend).
      destruct (_ && _); destruct Hend as (-> & _); trivial.
Qed.

Lemma run_stays_over (evs : list Event) (c : Component) :
  isGameActive (gameState c) = false ->
  isGameActive (gameState (run evs c)) = false.
Proof.
  induction evs as [|ev evs IH] using rev_ind; intros Hover; [exact Hover|].
  rewrite run_snoc. apply fire_stays_over. now apply IH.
Qed.

(** Restarting during the final wait (the restart button is on screen then
    only if question 30 was answered, which ended the game).  The start
    button installs a fresh active game but leaves the interval of the old
    session registered and its final wait pending, so the next period
    boundary takes the path of the automatic end.  If it comes after the
    1000 ms start timer, it ends the new game with question 1 on display and
    clears the interval.  If it comes before the start timer, it ends the
    new game with no question revealed, and the timer then reveals question
    1 of the finished game and registers a new interval.  Either way the new
    game is over for good. *)
Theorem restart_during_final_wait (now now' b : Z) (rnd rnd' : nat -> Draw)
    (evs evs2 : list Event) :
  boundaries evs = 34 ->
  let c0 := pressStart now' rnd' (run evs (started now rnd)) in
  let timerFirst := fire (Boundary b) (showFirst c0) in
  let boundaryFirst := showFirst (fire (Boundary b) c0) in
  gameState c0 = startGame now' rnd'
  /\ countdownRef c0 = true /\ finalEndPendingRef c0 = true
  /\ gameState timerFirst = endGame b (set_questionCounter 1 (startGame now' rnd'))
  /\ countdownRef timerFirst = false /\ finalEndPendingRef timerFirst = false
  /\ gameState (fire (Boundary b) c0) = endGame b (startGame now' rnd')
  /\ gameState boundaryFirst = set_questionCounter 1 (endGame b (startGame now' rnd'))
  /\ countdownRef boundaryFirst = true /\ finalEndPendingRef boundaryFirst = false
  /\ isGameActive (gameState (run evs2 timerFirst)) = false
  /\ isGameActive (gameState (run evs2 boundaryFirst)) = false.
Proof.
  intros Hn. cbv zeta.
  destruct (run_shape now rnd evs) as (_ & _ & _ & _ & H34 & _).
  destruct (H34 Hn) as (Hfin & Hcd).
  destruct (run evs (started now rnd)) as [g cur fb tr lt cd fin].
  simpl in Hfin, Hcd. subst.
  repeat split; try (apply run_stays_over; reflexivity).
Qed.

Lemma restart_during_final_wait_witness :
  isGameActive
    (gameState
       (run []
          (showFirst
             (fire (Boundary 105500)
                (pressStart 105000 stubbornRnd
                   (run (sampleBoundaries 1 34 ++ [Typed "2"; Submit 104500])
                      (started 0 sampleRnd)))))))
  = false.
Proof.
  assert (H1 : boundaries (sampleBoundaries 1 34 ++ [Typed "2"; Submit 104500]) = 34)
    by (vm_compute; reflexivity).
  destruct (restart_during_final_wait 0 105000 105500 sampleRnd stubbornRnd _ [] H1)
    as (_ & _ & _ & _ & _ & _ & _ & _ & _ & _ & _ & H).
  exact H.
Defined.

End Restarts.
